(** * Verification of the user store and the validation errors of the
    sales service

    The development embeds the Go packages [business/data/store/user]
    (the user store) and [business/sys/validate] (the error types) and
    states the properties of the service specification over them.
    Packages the store calls but which are not part of the embedded sources
    ([auth], [database], [web], the validator and the bcrypt library) appear
    as interfaces, with an in-memory implementation to run the code on. *)

From Stdlib Require Import ZArith Lia.
From stdpp Require Import base option list sorting strings pretty gmap.

Set Warnings "-register-all".

Local Open Scope string_scope.
Local Open Scope Z_scope.

(** ** Go basics *)

(** A Go slice is either [nil] or a sequence of elements; the difference is
    observable ([uu.Roles != nil], [json.Marshal]). *)
Definition slice (A : Type) : Type := option (list A).

Definition elems {A : Type} (s : slice A) : list A := default [] s.

(** The double quote character, which delimits JSON strings. *)
Definition dquote : string := String (Ascii.ascii_of_nat 34) EmptyString.

(** [time.Time] as nanoseconds since the Unix epoch, [time.Duration] as
    nanoseconds. *)
Definition Time : Type := Z.

Definition Second : Z := 1000000000.
Definition Hour : Z := 3600 * Second.

Definition Time_Add (t : Time) (d : Z) : Time := t + d.

(** [t.Truncate(d)]: rounds [t] down to a multiple of [d]. *)
Definition Time_Truncate (t : Time) (d : Z) : Time := t - t `mod` d.

(** ** Package validate: error values *)

(** [FieldError] is used to indicate an error with a specific request
    field. *)
Record FieldError : Type := mkFieldError {
  FieldError_Field : string;   (* `json:"field"` *)
  FieldError_Error : string    (* `json:"error"` *)
}.

(** [FieldErrors] represents a collection of field errors. *)
Definition FieldErrors : Type := slice FieldError.

(** The package-level error variables of the packages [user], [database]
    and [validate].  Each is one [errors.New] value; Go compares them by
    identity. *)
Inductive ErrVar : Type :=
| ErrNotFound                 (* user: "user not found" *)
| ErrInvalidID                (* user: "ID is not in its proper form" *)
| ErrInvalidEmail             (* user: "email is not valid" *)
| ErrUniqueEmail              (* user: "email is not unique" *)
| ErrAuthenticationFailure    (* user: "authentication failed" *)
| ErrDBNotFound               (* database.ErrDBNotFound *)
| ErrForbidden                (* database.ErrForbidden *)
| ErrInvalidId.               (* validate: "ID is not in its proper form" *)

Global Instance ErrVar_eq_dec : EqDecision ErrVar.
Proof. solve_decision. Defined.

(** The non-nil error values that flow through the service. *)
Inductive error : Type :=
| ErrorVar (v : ErrVar)
    (* one of the package-level variables *)
| NewError (text : string)
    (* an [errors.New] value made at run time, or an error of a library *)
| WrapError (format : string) (args : list string) (err : error)
    (* [fmt.Errorf(format, args..., err)] with a [%w] verb: has [Unwrap] *)
| FieldErrorsError (fe : FieldErrors)
    (* a [FieldErrors] value used as an error: no [Unwrap] method *)
| RequestErrorPtr (Err : error) (Status : Z) (Fields : option error).
    (* [*RequestError]: no [Unwrap] method *)

(** The interface type [error]: [None] is [nil]. *)
Abbreviation goerror := (option error).

(** [err == v] for a package-level variable [v]. *)
Definition error_is_var (err : error) (v : ErrVar) : bool :=
  match err with
  | ErrorVar v' => bool_decide (v' = v)
  | _ => false
  end.

(** An error type that may wrap another error.  [unwrap e] is what the
    type's [Unwrap] method returns, [None] when the type has none. *)
Class Unwrapper (E : Type) : Type := unwrap : E → option E.

Global Instance error_unwrapper : Unwrapper error := λ e,
  match e with
  | WrapError _ _ err => Some err
  | _ => None
  end.

Section Cause.
Context {E : Type} `{Unwrapper E}.

(** [errors.Unwrap(err)]: [nil] for a [nil] error and for a type without
    [Unwrap]. *)
Definition errors_Unwrap (err : option E) : option E := err ≫= unwrap.

(** [Cause] iterates through all the wrapped errors until the root error
    value is reached.  The loop has no bound in the source; [fuel] bounds
    the number of iterations and [None] means the bound was hit. *)
Fixpoint Cause (fuel : nat) (root : option E) : option (option E) :=
  match fuel with
  | O => None
  | S fuel' =>
      match errors_Unwrap root with
      | None => Some root
      | Some err => Cause fuel' (Some err)
      end
  end.

(** The error [n] steps down the chain of wrapped errors. *)
Fixpoint unwrap_n (n : nat) (err : option E) : option E :=
  match n with
  | O => err
  | S n' => unwrap_n n' (errors_Unwrap err)
  end.

(** The chain of wrapped errors of [err] is finite: it has length at most
    [n]. *)
Definition finite_chain (err : option E) : Prop :=
  ∃ n, unwrap_n n err = None.

(** [root] is in the chain of [err]. *)
Definition in_chain (root err : option E) : Prop :=
  ∃ n, unwrap_n n err = root.
End Cause.

(** [errors.Is(err, v)] for a package-level variable [v]: some error of the
    chain is [v]. *)
Fixpoint errors_Is (err : error) (v : ErrVar) : bool :=
  match err with
  | ErrorVar v' => bool_decide (v' = v)
  | WrapError _ _ err' => errors_Is err' v
  | _ => false
  end.

(** The length of the chain of wrapped errors below [err]. *)
Fixpoint chain_depth (err : error) : nat :=
  match err with
  | WrapError _ _ err' => S (chain_depth err')
  | _ => O
  end.

(** [NewRequestError] wraps a provided error with an HTTP status code. *)
Definition NewRequestError (err : error) (status : Z) : error :=
  RequestErrorPtr err status None.

(** ** The output of [encoding/json] *)

Inductive JSON : Type :=
| JNull
| JNumber (n : Z)
| JString (s : string)
| JArray (xs : list JSON)
| JObject (members : list (string * JSON)).

(** The JSON string literal for a Go string (quoting and escaping), as
    [encoding/json] writes it. *)
Class JSONQuote : Type := json_quote : string → string.

Section Render.
Context `{JSONQuote}.

(** The text [encoding/json] writes for a value: no white space, members
    in the order of the struct fields. *)
Fixpoint render (j : JSON) : string :=
  match j with
  | JNull => "null"
  | JNumber n => pretty n
  | JString s => json_quote s
  | JArray xs => "[" +:+ String.concat "," (map render xs) +:+ "]"
  | JObject ms =>
      "{" +:+ String.concat ","
                (map (λ kv, json_quote (fst kv) +:+ ":" +:+ render (snd kv)) ms)
          +:+ "}"
  end.
End Render.

(** [json.Marshal] of a [FieldError], by its struct tags. *)
Definition marshal_FieldError (fld : FieldError) : JSON :=
  JObject [("field", JString (FieldError_Field fld));
           ("error", JString (FieldError_Error fld))].

(** [json.Marshal] of a [FieldErrors]: [null] for a nil slice, else the array
    of its elements.  It never fails for this type. *)
Definition marshal_FieldErrors (fe : FieldErrors) : JSON :=
  match fe with
  | None => JNull
  | Some l => JArray (map marshal_FieldError l)
  end.

(** [FieldErrors.Error] implements the error interface. *)
Definition FieldErrors_Error `{JSONQuote} (fe : FieldErrors) : string :=
  render (marshal_FieldErrors fe).

(** [FieldErrors.Fields] returns the fields that failed validation. *)
Definition FieldErrors_Fields (fe : FieldErrors) : gmap string string :=
  foldl (λ m fld, <[FieldError_Field fld := FieldError_Error fld]> m) ∅ (elems fe).

(** [ErrorResponse] is the form used for API responses from failures in the
    API. *)
Record ErrorResponse : Type := mkErrorResponse {
  ErrorResponse_Error : string;    (* `json:"error"` *)
  ErrorResponse_Fields : string    (* `json:"fields,omitempty"` *)
}.

(** [json.Marshal] of an [ErrorResponse]: [omitempty] leaves out an empty
    string. *)
Definition marshal_ErrorResponse (er : ErrorResponse) : JSON :=
  JObject (("error", JString (ErrorResponse_Error er)) ::
           (if bool_decide (ErrorResponse_Fields er = "") then []
            else [("fields", JString (ErrorResponse_Fields er))])).

(** ** Package auth: the claims *)

(** [auth.Claims], as the store builds and reads it: the registered claims
    [Issuer], [Subject], [ExpiresAt] and [IssuedAt] (numeric dates behind
    pointers) and the roles. *)
Record Claims : Type := mkClaims {
  Claims_Issuer : string;
  Claims_Subject : string;
  Claims_ExpiresAt : option Time;
  Claims_IssuedAt : option Time;
  Claims_Roles : list string
}.

(** The name of the administrator role, [auth.RoleAdmin]; its value is set
    outside the embedded sources. *)
Class AuthRoles : Type := RoleAdmin : string.

(** Modelled from the spec: the method [Claims.Authorized] of package [auth]
    is not among the embedded sources.  [Authorized(requiredRole)] is true
    iff the role set contains [requiredRole]. *)
Definition Authorized (c : Claims) (requiredRole : string) : bool :=
  bool_decide (requiredRole ∈ Claims_Roles c).

(** [jwt.NewNumericDate(t)]: the time truncated to the precision of a
    second. *)
Definition NewNumericDate (t : Time) : Time := Time_Truncate t Second.

(** ** Package user: the data *)

(** The user row, with the fields the store reads and writes. *)
Record User : Type := mkUser {
  User_ID : string;               (* user_id *)
  User_Name : string;             (* name *)
  User_Email : string;            (* email *)
  User_PasswordHash : string;     (* password_hash *)
  User_Roles : list string;       (* roles *)
  User_DateCreated : Time;        (* date_created *)
  User_DateUpdated : Time         (* date_updated *)
}.

(** The data to create a user from. *)
Record NewUser : Type := mkNewUser {
  NewUser_Name : string;
  NewUser_Email : string;
  NewUser_Roles : list string;
  NewUser_Password : string
}.

(** The changes to a user: pointer fields and a slice, [nil] where the
    caller asks for no change. *)
Record UpdateUser : Type := mkUpdateUser {
  UpdateUser_Name : option string;
  UpdateUser_Email : option string;
  UpdateUser_Roles : slice string;
  UpdateUser_Password : option string
}.

(** What a Go function of type [(T, error)] returns. *)
Inductive result (A : Type) : Type :=
| Ok (a : A)
| Err (err : error).
Arguments Ok {A} a.
Arguments Err {A} err.

(** ** The collaborators of the store *)

(** The statements the store sends to [database.NamedExecContext], each with
    the data bound to its named parameters. *)
Inductive Statement : Type :=
| InsertUser (usr : User)
    (* INSERT INTO users (user_id, name, email, password_hash, roles,
       date_created, date_updated) VALUES (...) *)
| UpdateUserRow (usr : User)
    (* UPDATE users SET "name", "email", "roles", "password_hash",
       "date_updated" WHERE user_id = :user_id *)
| DeleteUser (user_id : string).
    (* DELETE FROM users WHERE user_id = :user_id *)

(** The queries sent to [database.NamedQueryStruct]. *)
Inductive RowQuery : Type :=
| SelectByID (user_id : string)
    (* SELECT * FROM users WHERE user_id = :user_id *)
| SelectByEmail (email : string).
    (* SELECT * FROM users WHERE email = :email *)

(** The query sent to [database.NamedQuerySlice]. *)
Inductive RowsQuery : Type :=
| SelectPage (offset rows_per_page : Z).
    (* SELECT * FROM users ORDER BY user_id
       OFFSET :offset ROWS FETCH NEXT :rows_per_page ROWS ONLY *)

(** Modelled from the spec: package [database] is not among the embedded
    sources.  The persistence collaborator offers
    [ExecuteNamed(query, boundParams) → error],
    [QueryOne(query, boundParams) → (row, error)] and
    [QueryMany(query, boundParams) → (rows, error)], here under the names the
    store calls them by, over a world [W] that holds the database. *)
Class Persistence (W : Type) : Type := {
  NamedExecContext : Statement → W → goerror * W;
  NamedQueryStruct : RowQuery → W → result User * W;
  NamedQuerySlice : RowsQuery → W → result (list User) * W
}.

(** The other effects of the store: the wall clock, the salted password
    hash and the fresh identifier. *)
Class Runtime (W : Type) : Type := {
  time_Now : W → Time * W;
  bcrypt_GenerateFromPassword : string → W → result string * W;
  validate_GenerateID : W → string * W
}.

(** [bcrypt.CompareHashAndPassword(hash, password)]: [nil] on a match. *)
Class Bcrypt : Type := bcrypt_CompareHashAndPassword : string → string → goerror.

(** The checks of package [validate] the store calls. *)
Class Validator : Type := {
  CheckID : string → goerror;
  Check_NewUser : NewUser → goerror;
  Check_UpdateUser : UpdateUser → goerror
}.

(** Go's [int] on the 64-bit platforms the service runs on. *)
Definition wrap_int (z : Z) : Z := (z + 2 ^ 63) `mod` 2 ^ 64 - 2 ^ 63.

(** ** Package user: the store *)

Section Store.
Context {W : Type} `{Persistence W} `{Runtime W} `{Bcrypt} `{Validator}
        `{AuthRoles}.

(** [Create] inserts a new user into the database. *)
Definition Create (nu : NewUser) (now : Time) (w : W) : result User * W :=
  match Check_NewUser nu with
  | Some err => (Err (WrapError "validating data: %w" [] err), w)
  | None =>
      match bcrypt_GenerateFromPassword (NewUser_Password nu) w with
      | (Err err, w1) =>
          (Err (WrapError "generating password hash: %w" [] err), w1)
      | (Ok hash, w1) =>
          let '(id, w2) := validate_GenerateID w1 in
          let usr := {| User_ID := id;
                        User_Name := NewUser_Name nu;
                        User_Email := NewUser_Email nu;
                        User_PasswordHash := hash;
                        User_Roles := NewUser_Roles nu;
                        User_DateCreated := now;
                        User_DateUpdated := now |} in
          match NamedExecContext (InsertUser usr) w2 with
          | (Some err, w3) => (Err (WrapError "inserting user: %w" [] err), w3)
          | (None, w3) => (Ok usr, w3)
          end
      end
  end.

(** [QueryByID] gets the specified user from the database. *)
Definition QueryByID (claims : Claims) (userID : string) (w : W)
  : result User * W :=
  match CheckID userID with
  | Some _ => (Err (ErrorVar ErrInvalidID), w)
  | None =>
      (* If you are not an admin and looking to retrieve someone other
         than yourself. *)
      if negb (Authorized claims RoleAdmin)
         && negb (String.eqb (Claims_Subject claims) userID)
      then (Err (ErrorVar ErrForbidden), w)
      else
        match NamedQueryStruct (SelectByID userID) w with
        | (Err err, w1) =>
            if error_is_var err ErrDBNotFound
            then (Err (ErrorVar ErrNotFound), w1)
            else (Err (WrapError "selecting userID[%q]: %w" [userID] err), w1)
        | (Ok usr, w1) =>
            if negb (Authorized claims RoleAdmin)
               && negb (String.eqb (Claims_Subject claims) (User_ID usr))
            then (Err (ErrorVar ErrForbidden), w1)
            else (Ok usr, w1)
        end
  end.

(** The assignments of [Update] to the fetched user that need no call:
    name, email and roles. *)
Definition Update_assign (uu : UpdateUser) (usr : User) : User :=
  let usr := match UpdateUser_Name uu with
             | Some name =>
                 {| User_ID := User_ID usr; User_Name := name;
                    User_Email := User_Email usr;
                    User_PasswordHash := User_PasswordHash usr;
                    User_Roles := User_Roles usr;
                    User_DateCreated := User_DateCreated usr;
                    User_DateUpdated := User_DateUpdated usr |}
             | None => usr
             end in
  let usr := match UpdateUser_Email uu with
             | Some email =>
                 {| User_ID := User_ID usr; User_Name := User_Name usr;
                    User_Email := email;
                    User_PasswordHash := User_PasswordHash usr;
                    User_Roles := User_Roles usr;
                    User_DateCreated := User_DateCreated usr;
                    User_DateUpdated := User_DateUpdated usr |}
             | None => usr
             end in
  match UpdateUser_Roles uu with
  | Some roles =>
      {| User_ID := User_ID usr; User_Name := User_Name usr;
         User_Email := User_Email usr;
         User_PasswordHash := User_PasswordHash usr;
         User_Roles := roles;
         User_DateCreated := User_DateCreated usr;
         User_DateUpdated := User_DateUpdated usr |}
  | None => usr
  end.

(** The last steps of [Update]: the time stamp and the UPDATE statement. *)
Definition Update_store (usr : User) (hash : string) (now : Time) (w : W)
  : goerror * W :=
  let usr := {| User_ID := User_ID usr; User_Name := User_Name usr;
                User_Email := User_Email usr;
                User_PasswordHash := hash;
                User_Roles := User_Roles usr;
                User_DateCreated := User_DateCreated usr;
                User_DateUpdated := now |} in
  match NamedExecContext (UpdateUserRow usr) w with
  | (Some err, w') => (Some (WrapError "inserting user: %w" [] err), w')
  | (None, w') => (None, w')
  end.

(** [Update] replaces a user document in the database. *)
Definition Update (claims : Claims) (userID : string) (uu : UpdateUser)
    (now : Time) (w : W) : goerror * W :=
  match CheckID userID with
  | Some _ => (Some (ErrorVar ErrInvalidID), w)
  | None =>
      match Check_UpdateUser uu with
      | Some err => (Some (WrapError "validating data: %w" [] err), w)
      | None =>
          match QueryByID claims userID w with
          | (Err err, w1) =>
              if errors_Is err ErrDBNotFound
              then (Some (ErrorVar ErrNotFound), w1)
              else (Some (WrapError "updating user userID[%s]: %w" [userID] err), w1)
          | (Ok usr, w1) =>
              let usr := Update_assign uu usr in
              match UpdateUser_Password uu with
              | Some password =>
                  match bcrypt_GenerateFromPassword password w1 with
                  | (Err err, w2) =>
                      (Some (WrapError "generating password hash: %w" [] err), w2)
                  | (Ok pw, w2) => Update_store usr pw now w2
                  end
              | None => Update_store usr (User_PasswordHash usr) now w1
              end
          end
      end
  end.

(** [Delete] removes a user from the database. *)
Definition Delete (claims : Claims) (userID : string) (w : W) : goerror * W :=
  match CheckID userID with
  | Some _ => (Some (ErrorVar ErrInvalidID), w)
  | None =>
      (* If you are not an admin and looking to delete someone other than
         yourself *)
      if negb (Authorized claims RoleAdmin)
         && negb (String.eqb (Claims_Subject claims) userID)
      then (Some (ErrorVar ErrForbidden), w)
      else
        match NamedExecContext (DeleteUser userID) w with
        | (Some err, w') =>
            (Some (WrapError "deleting userID[%s]: %w" [userID] err), w')
        | (None, w') => (None, w')
        end
  end.

(** [Query] retrieves a list of existing users from the database. *)
Definition Query (pageNumber rowsPerPage : Z) (w : W)
  : result (list User) * W :=
  let offset := wrap_int (wrap_int (pageNumber - 1) * rowsPerPage) in
  match NamedQuerySlice (SelectPage offset rowsPerPage) w with
  | (Err err, w1) =>
      if error_is_var err ErrNotFound
      then (Err (ErrorVar ErrNotFound), w1)
      else (Err (WrapError "selecting users: %w" [] err), w1)
  | (Ok users, w1) => (Ok users, w1)
  end.

(** [QueryByEmail] gets the specified user from the database by email. *)
Definition QueryByEmail (claims : Claims) (email : string) (w : W)
  : result User * W :=
  match NamedQueryStruct (SelectByEmail email) w with
  | (Err err, w1) => (Err (WrapError "selecting email[%q]: %w" [email] err), w1)
  | (Ok usr, w1) =>
      if negb (Authorized claims RoleAdmin)
         && negb (String.eqb (Claims_Subject claims) (User_ID usr))
      then (Err (ErrorVar ErrForbidden), w1)
      else (Ok usr, w1)
  end.

(** [Authenticate] finds a user by their email and verifies their
    password.  On success it returns a Claims User representing this
    user.  The parameter [now] is not read: both time stamps come from
    [time.Now()], the expiry first. *)
Definition Authenticate (now : Time) (email password : string) (w : W)
  : result Claims * W :=
  match NamedQueryStruct (SelectByEmail email) w with
  | (Err err, w1) =>
      if error_is_var err ErrNotFound
      then (Err (ErrorVar ErrNotFound), w1)
      else (Err (WrapError "selecting email[%q]: %w" [email] err), w1)
  | (Ok usr, w1) =>
      match bcrypt_CompareHashAndPassword (User_PasswordHash usr) password with
      | Some _ => (Err (ErrorVar ErrAuthenticationFailure), w1)
      | None =>
          let '(t1, w2) := time_Now w1 in
          let '(t2, w3) := time_Now w2 in
          (Ok {| Claims_Issuer := "service project";
                 Claims_Subject := User_ID usr;
                 Claims_ExpiresAt := Some (NewNumericDate (Time_Add t1 Hour));
                 Claims_IssuedAt := Some (NewNumericDate t2);
                 Claims_Roles := User_Roles usr |}, w3)
      end
  end.
End Store.

(** ** An in-memory world to run the store in *)

(** Modelled from the spec: the database behind package [database] and the
    libraries the store calls are not among the embedded sources.  The world
    holds the users table, the journal of the statements executed on it, a
    wall clock that advances by [sim_tick] at each reading, and the count of
    identifiers handed out; it carries out the statements and queries of the
    store as their SQL text reads and surfaces a distinguishable "not found"
    condition. *)
Record Sim : Type := mkSim {
  sim_users : list User;
  sim_journal : list Statement;
  sim_clock : Time;
  sim_tick : Z;
  sim_ids : nat
}.

(** The world after a statement: the rows it leaves and one more entry in
    the journal. *)
Definition sim_with_users (rows : list User) (stmt : Statement) (w : Sim) : Sim :=
  {| sim_users := rows;
     sim_journal := sim_journal w ++ [stmt];
     sim_clock := sim_clock w;
     sim_tick := sim_tick w;
     sim_ids := sim_ids w |}.

(** UPDATE ... SET name, email, roles, password_hash, date_updated: the
    columns of the row [old] the statement sets, taken from [usr]. *)
Definition set_columns (usr old : User) : User :=
  {| User_ID := User_ID old;
     User_Name := User_Name usr;
     User_Email := User_Email usr;
     User_PasswordHash := User_PasswordHash usr;
     User_Roles := User_Roles usr;
     User_DateCreated := User_DateCreated old;
     User_DateUpdated := User_DateUpdated usr |}.

(** The conditions [user_id = :user_id] and [email = :email]. *)
Definition has_id (id : string) (u : User) : bool := String.eqb (User_ID u) id.

Definition has_email (email : string) (u : User) : bool :=
  String.eqb (User_Email u) email.

(** The rows after a statement; [user_id] is the primary key of the table,
    so a second row with the same key is refused. *)
Definition sim_exec (stmt : Statement) (rows : list User) : result (list User) :=
  match stmt with
  | InsertUser usr =>
      if existsb (has_id (User_ID usr)) rows
      then Err (NewError "duplicate key value violates unique constraint")
      else Ok (rows ++ [usr])%list
  | UpdateUserRow usr =>
      Ok (map (λ old, if has_id (User_ID usr) old then set_columns usr old else old)
              rows)
  | DeleteUser user_id =>
      Ok (filter (λ old, has_id user_id old = false) rows)
  end.

(** A query for one row: the first row that matches, or the not-found
    condition of the collaborator. *)
Definition sim_query_one (q : RowQuery) (rows : list User) : result User :=
  let found := match q with
               | SelectByID user_id => find (has_id user_id) rows
               | SelectByEmail email => find (has_email email) rows
               end in
  match found with
  | Some usr => Ok usr
  | None => Err (ErrorVar ErrDBNotFound)
  end.

(** ORDER BY user_id. *)
Definition id_le (u v : User) : Prop := String.le (User_ID u) (User_ID v).

Global Instance id_le_dec : RelDecision id_le.
Proof. intros u v. unfold id_le. apply _. Defined.

(** A query for a page of rows in the order of [user_id]. *)
Definition sim_query_many (q : RowsQuery) (rows : list User) : result (list User) :=
  match q with
  | SelectPage offset rows_per_page =>
      if (offset <? 0) || (rows_per_page <? 0)
      then Err (NewError "OFFSET and FETCH must not be negative")
      else Ok (take (Z.to_nat rows_per_page)
                 (drop (Z.to_nat offset) (merge_sort id_le rows)))
  end.

(** The persistence collaborator over the in-memory table.  A statement is
    entered in the journal whether it succeeds or not; a query leaves the
    world as it is. *)
Global Instance sim_persistence : Persistence Sim := {|
  NamedExecContext stmt w :=
    match sim_exec stmt (sim_users w) with
    | Ok rows => (None, sim_with_users rows stmt w)
    | Err err => (Some err, sim_with_users (sim_users w) stmt w)
    end;
  NamedQueryStruct q w := (sim_query_one q (sim_users w), w);
  NamedQuerySlice q w := (sim_query_many q (sim_users w), w)
|}.

(** A stand-in for the salted hash of bcrypt: the password behind a fixed
    prefix. *)
Definition sim_hash (password : string) : string := "$2a$10$" +:+ password.

(** The text of the identifier number [n]: a UUID in its canonical form. *)
Definition sim_id (n : nat) : string :=
  let digits := pretty (N.of_nat n `mod` 1000000000000)%N in
  "00000000-0000-4000-8000-"
    +:+ String.concat "" (replicate (12 - String.length digits)%nat "0")
    +:+ digits.

(** The clock, the hash and the identifiers of the in-memory world. *)
Global Instance sim_runtime : Runtime Sim := {|
  time_Now w :=
    (sim_clock w,
     {| sim_users := sim_users w; sim_journal := sim_journal w;
        sim_clock := sim_clock w + sim_tick w; sim_tick := sim_tick w;
        sim_ids := sim_ids w |});
  bcrypt_GenerateFromPassword password w := (Ok (sim_hash password), w);
  validate_GenerateID w :=
    (sim_id (sim_ids w),
     {| sim_users := sim_users w; sim_journal := sim_journal w;
        sim_clock := sim_clock w; sim_tick := sim_tick w;
        sim_ids := S (sim_ids w) |})
|}.

(** The comparison that goes with [sim_hash]. *)
Definition sim_bcrypt : Bcrypt := λ hash password,
  if String.eqb hash (sim_hash password) then None
  else Some (NewError "hashedPassword is not the hash of the given password").

(** A hexadecimal digit, in either case. *)
Definition is_hex (c : Ascii.ascii) : bool :=
  let n := Ascii.nat_of_ascii c in
  ((48 <=? n) && (n <=? 57) || (97 <=? n) && (n <=? 102)
   || (65 <=? n) && (n <=? 70))%nat.

(** The canonical text of a UUID: 36 characters, hyphens at the positions
    8, 13, 18 and 23 and hexadecimal digits elsewhere. *)
Fixpoint uuid_chars (i : nat) (cs : list Ascii.ascii) : bool :=
  match cs with
  | [] => (i =? 36)%nat
  | c :: cs' =>
      (if bool_decide (i ∈ [8; 13; 18; 23]%nat)
       then Ascii.eqb c (Ascii.ascii_of_nat 45)
       else is_hex c)
      && uuid_chars (S i) cs'
  end.

Definition is_uuid (s : string) : bool := uuid_chars 0 (String.list_ascii_of_string s).

(** The field error of a value that must not be empty. *)
Definition required (field value : string) : list FieldError :=
  if String.eqb value "" then [mkFieldError field "is a required field"] else [].

(** The result of a validation: the field errors, if any. *)
Definition check_fields (fields : list FieldError) : goerror :=
  match fields with
  | [] => None
  | _ => Some (FieldErrorsError (Some fields))
  end.

(** A validator to run the store with: identifiers are UUIDs, and every
    field of a new or changed user that is present must not be empty. *)
Definition sim_validator : Validator := {|
  CheckID id := if is_uuid id then None else Some (ErrorVar ErrInvalidId);
  Check_NewUser nu :=
    check_fields (required "name" (NewUser_Name nu)
                  ++ required "email" (NewUser_Email nu)
                  ++ required "password" (NewUser_Password nu))%list;
  Check_UpdateUser uu :=
    check_fields (from_option (required "name") [] (UpdateUser_Name uu)
                  ++ from_option (required "email") [] (UpdateUser_Email uu)
                  ++ from_option (required "password") [] (UpdateUser_Password uu))%list
|}.

(** The name of the admin role in the in-memory world. *)
Definition sim_roles : AuthRoles := "ADMIN".

(** A JSON string encoder for texts that need no escaping. *)
Definition plain_quote : JSONQuote := λ s, dquote +:+ s +:+ dquote.

(** ** Package auth: the token codec *)

(** The asymmetric signature scheme of the tokens: what is signed is the key
    identifier of the header and the payload. *)
Class SignatureScheme : Type := {
  PrivateKey : Type;
  PublicKey : Type;
  Signature : Type;
  sign : PrivateKey → string → JSON → Signature;
  verify : PublicKey → string → JSON → Signature → bool
}.

Section TokenCodec.
Context `{SignatureScheme}.

(** Modelled from the spec: the key store of package [auth] is not among
    the embedded sources.  A process-wide set of asymmetric key pairs, each
    addressable by a key identifier, used to sign (private) and verify
    (public) tokens; one identifier is the currently active one. *)
Record KeyPair : Type := mkKeyPair {
  kp_private : PrivateKey;
  kp_public : PublicKey
}.

Record Keys : Type := mkKeys {
  key_pairs : gmap string KeyPair;
  active_kid : string
}.

(** Modelled from the spec: the signed token of package [auth] is not among
    the embedded sources.  A compact, tamper-evident encoding of Claims plus
    a cryptographic signature over a chosen key identifier: the three
    segments of the compact form. *)
Record Token : Type := mkToken {
  token_kid : string;
  token_payload : JSON;
  token_signature : Signature
}.

(** A key pair whose public key accepts what its private key signs. *)
Definition key_pair_sound (kp : KeyPair) : Prop :=
  ∀ kid payload,
    verify (kp_public kp) kid payload (sign (kp_private kp) kid payload) = true.
End TokenCodec.

Definition optional_number (name : string) (t : option Time)
  : list (string * JSON) :=
  match t with
  | Some n => [(name, JNumber n)]
  | None => []
  end.

(** Modelled from the spec: the serialization of Claims in package [auth] is
    not among the embedded sources.  The payload carries the subject, the
    roles, the issued-at and expiry time stamps and the issuer. *)
Definition claims_to_JSON (c : Claims) : JSON :=
  JObject ([("iss", JString (Claims_Issuer c));
            ("sub", JString (Claims_Subject c))]
           ++ optional_number "exp" (Claims_ExpiresAt c)
           ++ optional_number "iat" (Claims_IssuedAt c)
           ++ [("roles", JArray (map JString (Claims_Roles c)))]).

Definition member (name : string) (ms : list (string * JSON)) : option JSON :=
  snd <$> find (λ kv, String.eqb (fst kv) name) ms.

Definition as_string (j : JSON) : option string :=
  match j with
  | JString s => Some s
  | _ => None
  end.

Definition as_number (j : JSON) : option Z :=
  match j with
  | JNumber n => Some n
  | _ => None
  end.

Definition as_strings (j : JSON) : option (list string) :=
  match j with
  | JArray xs => mapM as_string xs
  | _ => None
  end.

(** A member that may be absent, and must be a number when present. *)
Definition number_member (name : string) (ms : list (string * JSON))
  : option (option Z) :=
  match member name ms with
  | None => Some None
  | Some j => Some <$> as_number j
  end.

(** Modelled from the spec: the decoding of the payload in package [auth] is
    not among the embedded sources. *)
Definition claims_of_JSON (j : JSON) : option Claims :=
  match j with
  | JObject ms =>
      iss ← member "iss" ms ≫= as_string;
      sub ← member "sub" ms ≫= as_string;
      exp ← number_member "exp" ms;
      iat ← number_member "iat" ms;
      roles ← member "roles" ms ≫= as_strings;
      Some {| Claims_Issuer := iss; Claims_Subject := sub;
              Claims_ExpiresAt := exp; Claims_IssuedAt := iat;
              Claims_Roles := roles |}
  | _ => None
  end.

(** The validity window [issued-at, expiry] of the spec: the expiry is
    exclusive, and a time stamp that is absent sets no bound. *)
Definition in_validity_window (now : Time) (c : Claims) : bool :=
  from_option (λ iat, iat <=? now) true (Claims_IssuedAt c)
  && from_option (λ exp, now <? exp) true (Claims_ExpiresAt c).

(** The authentication error of a token that is refused: a trusted error
    with the unauthorized status. *)
Definition StatusUnauthorized : Z := 401.

Definition auth_error (text : string) : error :=
  NewRequestError (NewError text) StatusUnauthorized.

Section IssueParse.
Context `{SignatureScheme}.

(** Modelled from the spec: token issuance of package [auth] is not among
    the embedded sources.  [Issue(claims) → token] serializes Claims, signs
    with the private key for the currently active key identifier, returns
    the compact token.  Fails only if the signing key is unavailable. *)
Definition Issue (ks : Keys) (c : Claims) : result Token :=
  match key_pairs ks !! active_kid ks with
  | None => Err (NewError "signing key unavailable")
  | Some kp =>
      let payload := claims_to_JSON c in
      Ok {| token_kid := active_kid ks;
            token_payload := payload;
            token_signature := sign (kp_private kp) (active_kid ks) payload |}
  end.

(** Modelled from the spec: token verification of package [auth] is not
    among the embedded sources.  [Parse(tokenString) → claims] verifies the
    signature using the public key resolved from the token's embedded key
    identifier; decodes the payload; fails with an authentication error if
    the signature is invalid, the key identifier is unknown, or the current
    time is outside the validity window. *)
Definition Parse (ks : Keys) (now : Time) (t : Token) : result Claims :=
  match key_pairs ks !! token_kid t with
  | None => Err (auth_error "unknown key identifier")
  | Some kp =>
      if verify (kp_public kp) (token_kid t) (token_payload t)
                (token_signature t)
      then
        match claims_of_JSON (token_payload t) with
        | None => Err (auth_error "malformed payload")
        | Some c =>
            if in_validity_window now c then Ok c
            else Err (auth_error "outside the validity window")
        end
      else Err (auth_error "invalid signature")
  end.
End IssueParse.

(** The invariant of Claims in the spec: expiry > issued-at, and a subject
    that is not empty. *)
Definition valid_claims (c : Claims) : Prop :=
  ∃ iat exp, Claims_IssuedAt c = Some iat ∧ Claims_ExpiresAt c = Some exp
             ∧ iat < exp ∧ Claims_Subject c ≠ "".

(** A signature scheme to run the codec with: the signature is the text of
    what is signed behind the number of the key, and a public key accepts the
    signatures of the private key with its number. *)
Definition sim_signature : SignatureScheme := {|
  PrivateKey := N;
  PublicKey := N;
  Signature := string;
  sign k kid payload :=
    pretty k +:+ ":" +:+ kid +:+ "." +:+ @render plain_quote payload;
  verify k kid payload s :=
    String.eqb s (pretty k +:+ ":" +:+ kid +:+ "." +:+ @render plain_quote payload)
|}.

(** ** Package web: the response writer *)

(** Modelled from the spec: the context values of package [web] are not
    among the embedded sources.  A per-request bag holding a unique trace
    identifier, a start timestamp, the current Claims (once authenticated)
    and a mutable "response already started" flag. *)
Record Values : Type := mkValues {
  Values_TraceID : string;
  Values_Now : Time;
  Values_Claims : option Claims;
  Values_Started : bool
}.

(** One request in flight: its context values and what was written to the
    wire for it, the oldest response first. *)
Record Request : Type := mkRequest {
  req_values : Values;
  req_wire : list (Z * JSON)
}.

(** The request as the App creates it. *)
Definition new_request (traceID : string) (now : Time) : Request :=
  {| req_values := {| Values_TraceID := traceID; Values_Now := now;
                      Values_Claims := None; Values_Started := false |};
     req_wire := [] |}.

(** Modelled from the spec: [web.Respond] is not among the embedded sources.
    [Respond(result, statusCode)] encodes result to the wire and marks the
    per-request "already started" flag; calling it twice for the same request
    is a programming-error condition and is detected by the flag check. *)
Definition Respond (data : JSON) (statusCode : Z) (r : Request)
  : goerror * Request :=
  if Values_Started (req_values r)
  then (Some (NewError "response already started"), r)
  else
    (None,
     {| req_values :=
          {| Values_TraceID := Values_TraceID (req_values r);
             Values_Now := Values_Now (req_values r);
             Values_Claims := Values_Claims (req_values r);
             Values_Started := true |};
        req_wire := req_wire r ++ [(statusCode, data)] |}).

(** A series of calls of the response writer for one request: the errors
    returned, in order, and the request after the last call. *)
Fixpoint Respond_all (calls : list (JSON * Z)) (r : Request)
  : list goerror * Request :=
  match calls with
  | [] => ([], r)
  | (data, statusCode) :: calls' =>
      let '(err, r1) := Respond data statusCode r in
      let '(errs, r2) := Respond_all calls' r1 in
      (err :: errs, r2)
  end.

(** The values of the flag before the first call and after each call. *)
Fixpoint flag_trace (calls : list (JSON * Z)) (r : Request) : list bool :=
  Values_Started (req_values r) ::
  match calls with
  | [] => []
  | (data, statusCode) :: calls' =>
      flag_trace calls' (snd (Respond data statusCode r))
  end.

(** The number of transitions false→true in a series of values of the
    flag. *)
Fixpoint rises (flags : list bool) : nat :=
  match flags with
  | false :: (true :: _) as rest => S (rises rest)
  | _ :: rest => rises rest
  | [] => O
  end.

(** ** Package testgrp *)

Definition StatusOK : Z := 200.
Definition StatusBadRequest : Z := 400.

(** The [Test] handler is for development; [n] is what [rand.Intn(100)]
    returns. *)
Definition Test (n : Z) (r : Request) : goerror * Request :=
  if n `rem` 2 =? 0
  then (Some (NewRequestError (NewError "trusted error") StatusBadRequest), r)
  else Respond (JObject [("Status", JString "OK")]) StatusOK r.

(** [s] occurs in the text [t]. *)
Definition occurs_in (s t : string) : Prop :=
  ∃ before after, t = before +:+ s +:+ after.

(** The shape of an entry of the [fields] array in the specification: an
    object with the string members [field] and [error]. *)
Definition is_string_member (name : string) (ms : list (string * JSON)) : bool :=
  match member name ms with
  | Some (JString _) => true
  | _ => false
  end.

Definition field_entry_shape (j : JSON) : bool :=
  match j with
  | JObject ms => is_string_member "field" ms && is_string_member "error" ms
  | _ => false
  end.

(** The shape of the body of an error response in the specification:
    [{ "error": string, "fields": [ {"field": string, "error": string}, ... ]? }]. *)
Definition specified_body_shape (j : JSON) : bool :=
  match j with
  | JObject ms =>
      is_string_member "error" ms
      && match member "fields" ms with
         | None => true
         | Some (JArray xs) => forallb field_entry_shape xs
         | Some _ => false
         end
  | _ => false
  end.

(** The body of an error response as the code writes it: the member [error]
    and, unless it is empty, the member [fields], both strings. *)
Definition written_body_shape (j : JSON) : bool :=
  match j with
  | JObject [(e, JString _)] => String.eqb e "error"
  | JObject [(e, JString _); (f, JString fields)] =>
      String.eqb e "error" && String.eqb f "fields" && negb (String.eqb fields "")
  | _ => false
  end.

(** The rule of the ownership check: the caller holds the admin role or is
    the target subject. *)
Definition owner_or_admin `{AuthRoles} (claims : Claims) (target : string) : Prop :=
  Authorized claims RoleAdmin = true ∨ Claims_Subject claims = target.

(** ** Test data *)

Definition alice : User :=
  {| User_ID := "5cf37266-3473-4006-984f-9325122678b7";
     User_Name := "Alice";
     User_Email := "a@x.com";
     User_PasswordHash := sim_hash "secret";
     User_Roles := ["USER"];
     User_DateCreated := 1553385600 * Second;
     User_DateUpdated := 1553385600 * Second |}.

Definition bob : User :=
  {| User_ID := "45b5fbd3-755f-4379-8f07-a58d4a30fa2f";
     User_Name := "Bob";
     User_Email := "b@x.com";
     User_PasswordHash := sim_hash "gophers";
     User_Roles := ["ADMIN"; "USER"];
     User_DateCreated := 1553385600 * Second;
     User_DateUpdated := 1553472000 * Second |}.

(** The claims of a token of a user. *)
Definition claims_of (usr : User) : Claims :=
  {| Claims_Issuer := "service project";
     Claims_Subject := User_ID usr;
     Claims_ExpiresAt := Some (1700003600 * Second);
     Claims_IssuedAt := Some (1700000000 * Second);
     Claims_Roles := User_Roles usr |}.

(** A world with the two users, the wall clock a quarter of a second past
    1700000000 s, a millisecond between two readings. *)
Definition sim0 : Sim :=
  {| sim_users := [alice; bob];
     sim_journal := [];
     sim_clock := 1700000000 * Second + 250000000;
     sim_tick := 1000000;
     sim_ids := 0 |}.

(** The user stored under an identifier: the row a lookup by [user_id]
    yields. *)
Definition stored (w : Sim) (id : string) : option User :=
  find (has_id id) (sim_users w).

(** A key store with one key pair, which is the active one. *)
Definition sim_keys : @Keys sim_signature :=
  {| key_pairs := {[ "54bb2165-71e1-41a6-af3e-7da4a0e1e2c1"
                     := @mkKeyPair sim_signature 7%N 7%N ]};
     active_kid := "54bb2165-71e1-41a6-af3e-7da4a0e1e2c1" |}.

(** The error at the end of the chain of wrapped errors of [err]. *)
Fixpoint error_root (err : error) : error :=
  match err with
  | WrapError _ _ err' => error_root err'
  | _ => err
  end.

(** An error type whose values wrap themselves, as a chain that never
    ends. *)
Definition cyclic_unwrapper : Unwrapper unit := λ e, Some e.

(** * Properties *)

(** ** The root cause of an error *)

Section CauseProperties.
Context {E : Type} `{Unwrapper E}.

Lemma unwrap_n_nil (n : nat) : unwrap_n n (None : option E) = None.
Proof. induction n as [|n IH]; simpl; auto. Qed.

Lemma unwrap_n_succ (n : nat) (err : option E) :
  unwrap_n (S n) err = errors_Unwrap (unwrap_n n err).
Proof.
  revert err. induction n as [|n IH]; intros err; [reflexivity|].
  change (unwrap_n (S (S n)) err) with (unwrap_n (S n) (errors_Unwrap err)).
  rewrite IH. reflexivity.
Qed.


(** An error that wraps nothing is its own cause. *)
Lemma Cause_unwrapped (n : nat) (err : option E) :
  errors_Unwrap err = None → Cause (S n) err = Some err.
Proof. intros Hu. simpl. rewrite Hu. reflexivity. Qed.

(** The loop of [Cause] ends on a chain of length [n], at an error of the
    chain that wraps nothing. *)
Lemma Cause_terminates (n : nat) (err : option E) :
  unwrap_n n err = None →
  ∃ root, Cause (S n) err = Some root
          ∧ in_chain root err
          ∧ errors_Unwrap root = None
          ∧ (errors_Unwrap err = None → root = err).
Proof.
  revert err. induction n as [|n IH]; intros err Hn.
  - simpl in Hn. subst err. exists None. repeat split; try reflexivity.
    exists 0%nat. reflexivity.
  - change (unwrap_n (S n) err) with (unwrap_n n (errors_Unwrap err)) in Hn.
    destruct (errors_Unwrap err) as [e|] eqn:Hu.
    + destruct (IH (Some e) Hn) as (root & Hc & [k Hk] & Hroot & _).
      exists root. repeat split.
      * change (Cause (S (S n)) err)
          with (match errors_Unwrap err with
                | None => Some err
                | Some err' => Cause (S n) (Some err')
                end).
        rewrite Hu. exact Hc.
      * exists (S k). change (unwrap_n (S k) err)
          with (unwrap_n k (errors_Unwrap err)). rewrite Hu. exact Hk.
      * exact Hroot.
      * discriminate.
    + exists err. repeat split; auto.
      * apply Cause_unwrapped. exact Hu.
      * exists 0%nat. reflexivity.
Qed.
End CauseProperties.



(** Every error of the service has a finite chain: the values are built
    from the inside out. *)
Lemma error_chain_finite (err : goerror) : finite_chain err.
Proof.
  destruct err as [e|]; [|exists 0%nat; reflexivity].
  exists (S (S (chain_depth e))).
  induction e as [v|text|format args e IH|fe|e1 IH1 status fields]; try reflexivity.
  exact IH.
Qed.

(** On the errors of the service [Cause] needs one iteration more than the
    chain is long. *)
Lemma Cause_error_returns (e : error) :
  ∃ root, Cause (S (chain_depth e)) (Some e) = Some (Some root)
          ∧ unwrap root = None.
Proof.
  induction e as [v|text|format args e IH|fe|e1 IH1 status fields];
    try (eexists; split; reflexivity).
  exact IH.
Qed.

(** A request error does not unwrap: it is its own cause, whatever it
    carries. *)
Example Cause_request_error :
  Cause 1 (Some (NewRequestError (WrapError "validating data: %w" []
                                    (ErrorVar ErrInvalidId)) StatusBadRequest))
  = Some (Some (NewRequestError (WrapError "validating data: %w" []
                                   (ErrorVar ErrInvalidId)) StatusBadRequest)).
Proof. reflexivity. Qed.

(** ** The field errors and the error response *)

Lemma string_app_assoc (s t u : string) : (s +:+ t) +:+ u = s +:+ t +:+ u.
Proof.
  induction s as [|c s IH]; [reflexivity|].
  change (String c ((s +:+ t) +:+ u) = String c (s +:+ t +:+ u)).
  rewrite IH. reflexivity.
Qed.

Lemma string_app_empty_r (s : string) : s +:+ "" = s.
Proof.
  induction s as [|c s IH]; [reflexivity|].
  change (String c (s +:+ "") = String c s). rewrite IH. reflexivity.
Qed.

Lemma occurs_in_refl (s : string) : occurs_in s s.
Proof. exists "", "". simpl. rewrite string_app_empty_r. reflexivity. Qed.

Lemma occurs_in_app_l (s t u : string) : occurs_in s t → occurs_in s (u +:+ t).
Proof.
  intros (b & a & ->). exists (u +:+ b), a. rewrite string_app_assoc. reflexivity.
Qed.

Lemma occurs_in_app_r (s t u : string) : occurs_in s t → occurs_in s (t +:+ u).
Proof.
  intros (b & a & ->). exists b, (a +:+ u).
  rewrite !string_app_assoc. reflexivity.
Qed.

(** Every text of a list occurs in the list joined by a separator. *)
Lemma occurs_in_concat (sep : string) (l : list string) (i : nat) (s : string) :
  l !! i = Some s → occurs_in s (String.concat sep l).
Proof.
  revert i. induction l as [|x l IH]; intros i Hi; [discriminate|].
  destruct i as [|i]; simpl in Hi.
  - injection Hi as ->. destruct l as [|y l]; simpl.
    + apply occurs_in_refl.
    + apply occurs_in_app_r, occurs_in_refl.
  - destruct l as [|y l]; [discriminate|].
    change (String.concat sep (x :: y :: l))
      with (x +:+ sep +:+ String.concat sep (y :: l)).
    apply occurs_in_app_l, occurs_in_app_l. eapply IH. exact Hi.
Qed.

(** What [Fields] holds for a field name after the loop over [l], started
    with the map [m]: the message of the last entry of [l] for the name, or
    what [m] held when [l] has no entry for it. *)
Lemma Fields_loop (l : list FieldError) (m : gmap string string) (name : string) :
  let m' := foldl (λ m fld, <[FieldError_Field fld := FieldError_Error fld]> m) m l in
  (∃ fld, fld ∈ l ∧ FieldError_Field fld = name
          ∧ m' !! name = Some (FieldError_Error fld))
  ∨ ((∀ fld, fld ∈ l → FieldError_Field fld ≠ name) ∧ m' !! name = m !! name).
Proof.
  revert m. induction l as [|x l IH]; intros m; simpl.
  - right. split; [|reflexivity]. intros fld Hin. inversion Hin.
  - destruct (IH (<[FieldError_Field x := FieldError_Error x]> m))
      as [(fld & Hin & Hname & Hm) | (Hnone & Hm)].
    + left. exists fld. split; [right; exact Hin | auto].
    + destruct (decide (FieldError_Field x = name)) as [Heq | Hne].
      * left. exists x. split; [left|]. split; [exact Heq|].
        rewrite Hm, <- Heq. apply lookup_insert_eq.
      * right. split.
        -- intros fld Hin. inversion Hin; subst; auto.
        -- rewrite Hm. apply lookup_insert_ne. exact Hne.
Qed.

(** C7: for every non-empty [FieldErrors] collection the structured output
    enumerates every failing field in one response: the marshalled value is
    an array with one entry per field error, the entry of each field error
    (its field name with its message) is in the array at its position and in
    the text of [Error], and [Fields] has an entry for each field name, with a
    message of that field. *)
Theorem FieldErrors_enumerates_all `{JSONQuote} (fe : FieldErrors) :
  elems fe ≠ [] →
  ∃ entries,
    marshal_FieldErrors fe = JArray entries
    ∧ length entries = length (elems fe)
    ∧ ∀ i fld, elems fe !! i = Some fld →
        entries !! i
        = Some (JObject [("field", JString (FieldError_Field fld));
                         ("error", JString (FieldError_Error fld))])
        ∧ occurs_in (render (marshal_FieldError fld)) (FieldErrors_Error fe)
        ∧ ∃ fld', fld' ∈ elems fe
                  ∧ FieldError_Field fld' = FieldError_Field fld
                  ∧ FieldErrors_Fields fe !! FieldError_Field fld
                    = Some (FieldError_Error fld').
Proof.
  intros Hne. destruct fe as [l|]; [|contradiction]. simpl in *.
  exists (map marshal_FieldError l). split; [reflexivity|].
  split; [apply length_map|].
  intros i fld Hi. split; [|split].
  - rewrite list_lookup_fmap, Hi. reflexivity.
  - unfold FieldErrors_Error. simpl.
    apply occurs_in_app_l, occurs_in_app_r.
    apply (occurs_in_concat _ _ i).
    rewrite !list_lookup_fmap, Hi. reflexivity.
  - unfold FieldErrors_Fields. simpl.
    destruct (Fields_loop l ∅ (FieldError_Field fld))
      as [(fld' & Hin & Hname & Hm) | (Hnone & _)].
    + exists fld'. auto.
    + exfalso. apply (Hnone fld); [|reflexivity].
      apply list_elem_of_lookup. exists i. exact Hi.
Qed.

Lemma FieldErrors_enumerates_all_witness :
  let fe : FieldErrors := Some [mkFieldError "email" "must be a valid email";
                                mkFieldError "name" "is a required field"] in
  elems fe ≠ []
  ∧ ∃ entries,
      marshal_FieldErrors fe = JArray entries
      ∧ length entries = length (elems fe)
      ∧ ∀ i fld, elems fe !! i = Some fld →
          entries !! i
          = Some (JObject [("field", JString (FieldError_Field fld));
                           ("error", JString (FieldError_Error fld))])
          ∧ occurs_in (@render plain_quote (marshal_FieldError fld))
                      (@FieldErrors_Error plain_quote fe)
          ∧ ∃ fld', fld' ∈ elems fe
                    ∧ FieldError_Field fld' = FieldError_Field fld
                    ∧ FieldErrors_Fields fe !! FieldError_Field fld
                      = Some (FieldError_Error fld').
Proof.
  assert (Hne : elems (Some [mkFieldError "email" "must be a valid email";
                             mkFieldError "name" "is a required field"]) ≠ []).
  { simpl. discriminate. }
  split; [exact Hne | exact (@FieldErrors_enumerates_all plain_quote _ Hne)].
Defined.

(** With field names that differ, [Fields] maps each name to its own
    message. *)
Lemma Fields_own_message (fe : FieldErrors) (fld : FieldError) :
  NoDup (map FieldError_Field (elems fe)) → fld ∈ elems fe →
  FieldErrors_Fields fe !! FieldError_Field fld = Some (FieldError_Error fld).
Proof.
  intros Hnd Hin. unfold FieldErrors_Fields.
  destruct (Fields_loop (elems fe) ∅ (FieldError_Field fld))
    as [(fld' & Hin' & Hname & Hm) | (Hnone & _)].
  - assert (Heq : fld' = fld); [|subst fld'; exact Hm].
    apply list_elem_of_lookup in Hin as [i Hi].
    apply list_elem_of_lookup in Hin' as [j Hj].
    assert (i = j) as <-.
    { eapply NoDup_lookup; [exact Hnd| |].
      - rewrite list_lookup_fmap, Hi. reflexivity.
      - rewrite list_lookup_fmap, Hj. simpl. rewrite Hname. reflexivity. }
    congruence.
  - exfalso. eapply Hnone; eauto.
Qed.

(** With a field name that occurs twice, [Fields] keeps the last message
    only; the text of [Error] has both. *)
Example Fields_keeps_last :
  FieldErrors_Fields (Some [mkFieldError "email" "is a required field";
                            mkFieldError "email" "must be a valid email"])
    !! "email" = Some "must be a valid email".
Proof. reflexivity. Qed.

(** C8, as the code has it: the serialized body of every [ErrorResponse] is
    the object with the string member [error], extended with a member
    [fields] exactly when the field [Fields] is not empty, and that member
    is a JSON string. *)
Theorem ErrorResponse_body_shape (er : ErrorResponse) :
  written_body_shape (marshal_ErrorResponse er) = true
  ∧ member "error" (match marshal_ErrorResponse er with
                    | JObject ms => ms
                    | _ => []
                    end) = Some (JString (ErrorResponse_Error er))
  ∧ member "fields" (match marshal_ErrorResponse er with
                     | JObject ms => ms
                     | _ => []
                     end)
    = if bool_decide (ErrorResponse_Fields er = "") then None
      else Some (JString (ErrorResponse_Fields er)).
Proof.
  unfold marshal_ErrorResponse.
  destruct (bool_decide (ErrorResponse_Fields er = "")) eqn:Hf; simpl.
  - auto.
  - repeat split. apply bool_decide_eq_false in Hf.
    destruct (String.eqb_spec (ErrorResponse_Fields er) ""); [contradiction|].
    reflexivity.
Qed.

(** C8, as stated, fails: the member [fields] of the body of a validation
    failure is a string (here the text of [FieldErrors.Error]), not an array
    of objects. *)
Lemma ErrorResponse_fields_not_array :
  let fe : FieldErrors := Some [mkFieldError "email" "must be a valid email"] in
  let er := {| ErrorResponse_Error := "data validation error";
               ErrorResponse_Fields := @FieldErrors_Error plain_quote fe |} in
  specified_body_shape (marshal_ErrorResponse er) = false
  ∧ member "fields" (match marshal_ErrorResponse er with
                     | JObject ms => ms
                     | _ => []
                     end)
    = Some (JString (@FieldErrors_Error plain_quote fe)).
Proof. split; reflexivity. Qed.

(** ** The ownership check of the store *)

Section StoreProperties.
Context {W : Type} `{Persistence W} `{Runtime W} `{Bcrypt} `{Validator}
        `{AuthRoles}.

(** The test of the store on claims and a subject, as a proposition. *)
Lemma ownership_test (claims : Claims) (target : string) :
  negb (Authorized claims RoleAdmin)
  && negb (String.eqb (Claims_Subject claims) target) = true
  ↔ ¬ owner_or_admin claims target.
Proof.
  unfold owner_or_admin.
  destruct (Authorized claims RoleAdmin);
    destruct (String.eqb_spec (Claims_Subject claims) target); simpl;
    split; intros Hx; try discriminate; try reflexivity;
    try (exfalso; apply Hx; auto; fail).
  intros [Ha | Hs]; [discriminate | contradiction].
Qed.

Lemma ownership_test_false (claims : Claims) (target : string) :
  negb (Authorized claims RoleAdmin)
  && negb (String.eqb (Claims_Subject claims) target) = false
  ↔ owner_or_admin claims target.
Proof.
  unfold owner_or_admin.
  destruct (Authorized claims RoleAdmin);
    destruct (String.eqb_spec (Claims_Subject claims) target); simpl;
    split; intros Hx; auto; try discriminate.
  destruct Hx; [discriminate | contradiction].
Qed.

(** [Delete] on a well-formed identifier: forbidden or handed to the
    database. *)
Lemma Delete_checked (claims : Claims) (userID : string) (w : W) :
  CheckID userID = None →
  Delete claims userID w
  = if negb (Authorized claims RoleAdmin)
       && negb (String.eqb (Claims_Subject claims) userID)
    then (Some (ErrorVar ErrForbidden), w)
    else match NamedExecContext (DeleteUser userID) w with
         | (Some err, w') =>
             (Some (WrapError "deleting userID[%s]: %w" [userID] err), w')
         | (None, w') => (None, w')
         end.
Proof. intros Hid. unfold Delete. rewrite Hid. reflexivity. Qed.

(** For the owner and for an admin [Delete] proceeds to the database. *)
Lemma Delete_proceeds (claims : Claims) (userID : string) (w : W) :
  CheckID userID = None → owner_or_admin claims userID →
  Delete claims userID w
  = match NamedExecContext (DeleteUser userID) w with
    | (Some err, w') =>
        (Some (WrapError "deleting userID[%s]: %w" [userID] err), w')
    | (None, w') => (None, w')
    end.
Proof.
  intros Hid Hown. rewrite Delete_checked by exact Hid.
  apply ownership_test_false in Hown. rewrite Hown. reflexivity.
Qed.

(** A caller who is neither the subject nor an admin is refused by
    [QueryByID] before the database is read. *)
Lemma QueryByID_forbidden (claims : Claims) (userID : string) (w : W) :
  CheckID userID = None → ¬ owner_or_admin claims userID →
  QueryByID claims userID w = (Err (ErrorVar ErrForbidden), w).
Proof.
  intros Hid Hown. unfold QueryByID. rewrite Hid.
  apply ownership_test in Hown. rewrite Hown. reflexivity.
Qed.
(** What [Update] sends to the database once the user is fetched and no
    password is given: the fetched row with the fields that are not nil
    replaced and the time stamp set. *)
Lemma Update_sends (claims : Claims) (userID : string) (uu : UpdateUser)
    (now : Time) (w w1 : W) (usr : User) :
  CheckID userID = None → Check_UpdateUser uu = None →
  QueryByID claims userID w = (Ok usr, w1) →
  UpdateUser_Password uu = None →
  Update claims userID uu now w
  = match NamedExecContext
            (UpdateUserRow
               {| User_ID := User_ID usr;
                  User_Name := default (User_Name usr) (UpdateUser_Name uu);
                  User_Email := default (User_Email usr) (UpdateUser_Email uu);
                  User_PasswordHash := User_PasswordHash usr;
                  User_Roles := default (User_Roles usr) (UpdateUser_Roles uu);
                  User_DateCreated := User_DateCreated usr;
                  User_DateUpdated := now |}) w1 with
    | (Some err, w') => (Some (WrapError "inserting user: %w" [] err), w')
    | (None, w') => (None, w')
    end.
Proof.
  intros Hid Hck Hq Hpw. unfold Update. rewrite Hid, Hck, Hq, Hpw.
  unfold Update_store, Update_assign.
  destruct (UpdateUser_Name uu), (UpdateUser_Email uu), (UpdateUser_Roles uu);
    reflexivity.
Qed.
End StoreProperties.

(** C1, as the code has it: for a well-formed target identifier (a malformed
    one is refused first, with the invalid-ID error), [Delete] and
    [QueryByID] return the forbidden error iff the caller is neither an admin
    nor the target subject, given that the row the database returns for an
    identifier has that identifier; [QueryByEmail], once the row is fetched,
    returns the forbidden error iff the caller is neither an admin nor the
    subject of the row. *)
Theorem ownership_check {W : Type} `{Persistence W} `{Validator} `{AuthRoles}
    (claims : Claims) (userID : string) (w : W) :
  CheckID userID = None →
  (∀ usr w1, NamedQueryStruct (SelectByID userID) w = (Ok usr, w1) →
             User_ID usr = userID) →
  (fst (Delete claims userID w) = Some (ErrorVar ErrForbidden)
   ↔ ¬ owner_or_admin claims userID)
  ∧ (fst (QueryByID claims userID w) = Err (ErrorVar ErrForbidden)
     ↔ ¬ owner_or_admin claims userID)
  ∧ (∀ email usr w1,
       NamedQueryStruct (SelectByEmail email) w = (Ok usr, w1) →
       (fst (QueryByEmail claims email w) = Err (ErrorVar ErrForbidden)
        ↔ ¬ owner_or_admin claims (User_ID usr))).
Proof.
  intros Hid Hrow. split; [|split].
  - rewrite Delete_checked by exact Hid. rewrite <- ownership_test.
    destruct (negb (Authorized claims RoleAdmin)
              && negb (String.eqb (Claims_Subject claims) userID)).
    + simpl. tauto.
    + destruct (NamedExecContext (DeleteUser userID) w) as [[err|] w']; simpl;
        split; intros Hx; discriminate.
  - unfold QueryByID. rewrite Hid. rewrite <- ownership_test.
    destruct (negb (Authorized claims RoleAdmin)
              && negb (String.eqb (Claims_Subject claims) userID)) eqn:Hown.
    + simpl. tauto.
    + destruct (NamedQueryStruct (SelectByID userID) w) as [[usr|err] w1] eqn:Hq.
      * rewrite (Hrow usr w1 eq_refl), Hown. simpl.
        split; intros Hx; discriminate.
      * destruct (error_is_var err ErrDBNotFound); simpl;
          split; intros Hx; discriminate.
  - intros email usr w1 Hq. unfold QueryByEmail. rewrite Hq.
    rewrite <- ownership_test.
    destruct (negb (Authorized claims RoleAdmin)
              && negb (String.eqb (Claims_Subject claims) (User_ID usr))); simpl.
    + tauto.
    + split; intros Hx; discriminate.
Qed.

Lemma ownership_check_witness :
  let _ : Validator := sim_validator in
  let _ : AuthRoles := sim_roles in
  let claims := claims_of alice in
  let userID := User_ID bob in
  CheckID userID = None
  ∧ (∀ usr w1, NamedQueryStruct (SelectByID userID) sim0 = (Ok usr, w1) →
               User_ID usr = userID)
  ∧ (fst (Delete claims userID sim0) = Some (ErrorVar ErrForbidden)
     ↔ ¬ owner_or_admin claims userID)
  ∧ (fst (QueryByID claims userID sim0) = Err (ErrorVar ErrForbidden)
     ↔ ¬ owner_or_admin claims userID)
  ∧ (∀ email usr w1,
       NamedQueryStruct (SelectByEmail email) sim0 = (Ok usr, w1) →
       (fst (QueryByEmail claims email sim0) = Err (ErrorVar ErrForbidden)
        ↔ ¬ owner_or_admin claims (User_ID usr))).
Proof.
  intros V R claims userID.
  assert (Hid : CheckID userID = None) by (vm_compute; reflexivity).
  assert (Hrow : ∀ usr w1,
             NamedQueryStruct (SelectByID userID) sim0 = (Ok usr, w1) →
             User_ID usr = userID).
  { intros usr w1 Hq. vm_compute in Hq. injection Hq as <- _. reflexivity. }
  split; [exact Hid|]. split; [exact Hrow|].
  exact (ownership_check claims userID sim0 Hid Hrow).
Defined.

(** C1, as stated, fails: a caller who is not an admin and whose subject
    differs from the target is not answered with the forbidden error when the
    target identifier is malformed; the check of the identifier comes
    first. *)
Lemma ownership_check_after_CheckID :
  let _ : Validator := sim_validator in
  let _ : AuthRoles := sim_roles in
  let claims := claims_of alice in
  Authorized claims RoleAdmin = false
  ∧ Claims_Subject claims ≠ "not-a-uuid"
  ∧ Delete claims "not-a-uuid" sim0 = (Some (ErrorVar ErrInvalidID), sim0)
  ∧ fst (Delete claims "not-a-uuid" sim0) ≠ Some (ErrorVar ErrForbidden)
  ∧ fst (QueryByID claims "not-a-uuid" sim0) ≠ Err (ErrorVar ErrForbidden).
Proof.
  intros V R claims. repeat split; try (vm_compute; discriminate).
Qed.

(** ** No write on the forbidden path *)

(** C5, as the code has it: for every call to [Delete] or [Update] by a
    caller who is not an admin and whose subject differs from the target
    identifier, the operation returns an error and leaves the world as it
    was, so no statement reaches the database; with a well-formed identifier
    (and, for [Update], data that pass validation) the error is the forbidden
    error, which [Update] wraps with the identifier; a malformed identifier
    is answered with the invalid-ID error and, by [Update], data that fail
    validation with the wrapped error of the validation. *)
Theorem forbidden_before_write {W : Type} `{Persistence W} `{Runtime W}
    `{Validator} `{AuthRoles}
    (claims : Claims) (userID : string) (uu : UpdateUser) (now : Time) (w : W) :
  Authorized claims RoleAdmin = false →
  Claims_Subject claims ≠ userID →
  (∃ err, Delete claims userID w = (Some err, w)
          ∧ (CheckID userID = None → err = ErrorVar ErrForbidden)
          ∧ (CheckID userID ≠ None → err = ErrorVar ErrInvalidID))
  ∧ (∃ err, Update claims userID uu now w = (Some err, w)
            ∧ (CheckID userID = None → Check_UpdateUser uu = None →
               err = WrapError "updating user userID[%s]: %w" [userID]
                       (ErrorVar ErrForbidden)
               ∧ errors_Is err ErrForbidden = true
               ∧ Cause 2 (Some err) = Some (Some (ErrorVar ErrForbidden)))
            ∧ (CheckID userID ≠ None → err = ErrorVar ErrInvalidID)
            ∧ (CheckID userID = None →
               ∀ e, Check_UpdateUser uu = Some e →
                    err = WrapError "validating data: %w" [] e)).
Proof.
  intros Hadmin Hsub.
  assert (Hown : ¬ owner_or_admin claims userID).
  { intros [Ha | Hs]; [congruence | contradiction]. }
  split.
  - unfold Delete. destruct (CheckID userID) as [e|] eqn:Hid.
    + eexists. split; [reflexivity|]. split; [discriminate | reflexivity].
    + apply ownership_test in Hown. rewrite Hown.
      eexists. split; [reflexivity|]. split; [reflexivity | contradiction].
  - unfold Update. destruct (CheckID userID) as [e|] eqn:Hid.
    + eexists. split; [reflexivity|].
      split; [discriminate|]. split; [reflexivity | discriminate].
    + destruct (Check_UpdateUser uu) as [e|] eqn:Hck.
      * eexists. split; [reflexivity|].
        split; [discriminate|]. split; [contradiction|].
        intros _ e' He'. injection He' as <-. reflexivity.
      * rewrite (QueryByID_forbidden claims userID w Hid Hown). simpl.
        eexists. split; [reflexivity|].
        split; [intros _ _; repeat split|]. split; [contradiction|].
        intros _ e' He'. discriminate.
Qed.

Lemma forbidden_before_write_witness :
  let _ : Validator := sim_validator in
  let _ : AuthRoles := sim_roles in
  let claims := claims_of alice in
  let userID := User_ID bob in
  let uu := {| UpdateUser_Name := Some "Robert"; UpdateUser_Email := None;
               UpdateUser_Roles := None; UpdateUser_Password := None |} in
  let now := 1700000000 * Second in
  Authorized claims RoleAdmin = false
  ∧ Claims_Subject claims ≠ userID
  ∧ (∃ err, Delete claims userID sim0 = (Some err, sim0)
            ∧ (CheckID userID = None → err = ErrorVar ErrForbidden)
            ∧ (CheckID userID ≠ None → err = ErrorVar ErrInvalidID))
  ∧ (∃ err, Update claims userID uu now sim0 = (Some err, sim0)
            ∧ (CheckID userID = None → Check_UpdateUser uu = None →
               err = WrapError "updating user userID[%s]: %w" [userID]
                       (ErrorVar ErrForbidden)
               ∧ errors_Is err ErrForbidden = true
               ∧ Cause 2 (Some err) = Some (Some (ErrorVar ErrForbidden)))
            ∧ (CheckID userID ≠ None → err = ErrorVar ErrInvalidID)
            ∧ (CheckID userID = None →
               ∀ e, Check_UpdateUser uu = Some e →
                    err = WrapError "validating data: %w" [] e)).
Proof.
  intros V R claims userID uu now.
  assert (Hadmin : Authorized claims RoleAdmin = false) by (vm_compute; reflexivity).
  assert (Hsub : Claims_Subject claims ≠ userID) by (vm_compute; discriminate).
  split; [exact Hadmin|]. split; [exact Hsub|].
  exact (forbidden_before_write claims userID uu now sim0 Hadmin Hsub).
Defined.

(** C5, as stated, fails: with a malformed identifier the error of [Update]
    and of [Delete] for such a caller is the invalid-ID error, which is not
    a forbidden error; the world is left as it was all the same. *)
Lemma forbidden_not_on_malformed_id :
  let _ : Validator := sim_validator in
  let _ : AuthRoles := sim_roles in
  let claims := claims_of alice in
  let uu := {| UpdateUser_Name := Some "Robert"; UpdateUser_Email := None;
               UpdateUser_Roles := None; UpdateUser_Password := None |} in
  Authorized claims RoleAdmin = false
  ∧ Claims_Subject claims ≠ "42"
  ∧ Update claims "42" uu (1700000000 * Second) sim0
    = (Some (ErrorVar ErrInvalidID), sim0)
  ∧ Delete claims "42" sim0 = (Some (ErrorVar ErrInvalidID), sim0)
  ∧ errors_Is (ErrorVar ErrInvalidID) ErrForbidden = false.
Proof.
  intros V R claims uu. repeat split; try (vm_compute; discriminate).
Qed.

(** ** What [Update] changes *)

Lemma has_id_true (id : string) (u : User) : has_id id u = true ↔ User_ID u = id.
Proof.
  unfold has_id. destruct (String.eqb_spec (User_ID u) id); split; auto.
  discriminate.
Qed.

Lemma stored_id (w : Sim) (id : string) (u : User) :
  stored w id = Some u → User_ID u = id.
Proof.
  unfold stored. intros Hf. apply find_some in Hf as [_ Hid].
  apply has_id_true. exact Hid.
Qed.

(** A change of the rows that keeps the identifiers changes the stored user
    the same way. *)
Lemma find_map_has_id (id : string) (f : User → User) (l : list User) :
  (∀ u, User_ID (f u) = User_ID u) →
  find (has_id id) (map f l) = f <$> find (has_id id) l.
Proof.
  intros Hf. induction l as [|u l IH]; [reflexivity|]. simpl.
  unfold has_id at 1. rewrite Hf. fold (has_id id u).
  destruct (has_id id u); [reflexivity | exact IH].
Qed.

Lemma Update_assign_frame (uu : UpdateUser) (usr : User) :
  let usr' := Update_assign uu usr in
  User_ID usr' = User_ID usr
  ∧ User_PasswordHash usr' = User_PasswordHash usr
  ∧ User_DateCreated usr' = User_DateCreated usr
  ∧ User_DateUpdated usr' = User_DateUpdated usr
  ∧ User_Name usr' = default (User_Name usr) (UpdateUser_Name uu)
  ∧ User_Email usr' = default (User_Email usr) (UpdateUser_Email uu)
  ∧ User_Roles usr' = default (User_Roles usr) (UpdateUser_Roles uu).
Proof.
  unfold Update_assign.
  destruct (UpdateUser_Name uu), (UpdateUser_Email uu), (UpdateUser_Roles uu);
    simpl; repeat split.
Qed.


(** The rows after [Update]: those before, or those before with the columns
    of the statement set in the rows of the identifier. *)
Lemma Update_rows `{Validator} `{AuthRoles}
    (claims : Claims) (userID : string) (uu : UpdateUser) (now : Time) (w : Sim) :
  sim_users (snd (Update claims userID uu now w)) = sim_users w
  ∨ ∃ usr, sim_users (snd (Update claims userID uu now w))
           = map (λ old, if has_id userID old then set_columns usr old else old)
                 (sim_users w).
Proof.
  unfold Update.
  destruct (CheckID userID) as [e|] eqn:Hid; [left; reflexivity|].
  destruct (Check_UpdateUser uu) as [e|]; [left; reflexivity|].
  unfold QueryByID. rewrite Hid.
  destruct (negb (Authorized claims RoleAdmin)
            && negb (String.eqb (Claims_Subject claims) userID));
    [left; reflexivity|].
  change (NamedQueryStruct (SelectByID userID) w)
    with (sim_query_one (SelectByID userID) (sim_users w), w).
  unfold sim_query_one.
  destruct (find (has_id userID) (sim_users w)) as [old|] eqn:Hfind;
    [|left; reflexivity].
  assert (Hold : User_ID old = userID) by (apply (stored_id w); exact Hfind).
  destruct (negb (Authorized claims RoleAdmin)
            && negb (String.eqb (Claims_Subject claims) (User_ID old)));
    [left; reflexivity|].
  destruct (Update_assign_frame uu old) as (Ha1 & _).
  destruct (UpdateUser_Password uu) as [password|]; right; eexists;
    unfold Update_store; cbn; rewrite Ha1, Hold; reflexivity.
Qed.

(** [Update] leaves the users stored under other identifiers as they
    were. *)
Lemma Update_other_users `{Validator} `{AuthRoles}
    (claims : Claims) (userID : string) (uu : UpdateUser) (now : Time) (w : Sim)
    (id : string) :
  id ≠ userID →
  stored (snd (Update claims userID uu now w)) id = stored w id.
Proof.
  intros Hne. unfold stored.
  destruct (Update_rows claims userID uu now w) as [-> | [usr ->]]; [reflexivity|].
  rewrite find_map_has_id.
  - destruct (find (has_id id) (sim_users w)) as [u|] eqn:Hfind; [|reflexivity].
    simpl. apply find_some in Hfind as [_ Hid]. apply has_id_true in Hid.
    destruct (has_id userID u) eqn:Hu; [|reflexivity].
    apply has_id_true in Hu. congruence.
  - intros u. destruct (has_id userID u); reflexivity.
Qed.



(** The update of the witness, run: the name and the time stamp change, the
    statement is in the journal, and the other user is as before. *)
Example Update_run :
  let _ : Validator := sim_validator in
  let _ : AuthRoles := sim_roles in
  let uu := {| UpdateUser_Name := Some "Alice B."; UpdateUser_Email := None;
               UpdateUser_Roles := None; UpdateUser_Password := None |} in
  let res := Update (claims_of alice) (User_ID alice) uu (1700000000 * Second) sim0 in
  fst res = None
  ∧ sim_users (snd res)
    = [ {| User_ID := User_ID alice; User_Name := "Alice B.";
           User_Email := User_Email alice;
           User_PasswordHash := User_PasswordHash alice;
           User_Roles := User_Roles alice;
           User_DateCreated := User_DateCreated alice;
           User_DateUpdated := 1700000000 * Second |}; bob ]
  ∧ length (sim_journal (snd res)) = 1%nat.
Proof. vm_compute. repeat split. Qed.

(** ** Authentication *)

Section AuthenticateProperties.
Context {W : Type} `{Persistence W} `{Runtime W} `{Bcrypt}.


(** The supplied [now] has no part in the result. *)
Lemma Authenticate_now_unused (now now' : Time) (email password : string) (w : W) :
  Authenticate now email password w = Authenticate now' email password w.
Proof. reflexivity. Qed.

(** [Authenticate] hands on the not-found condition of the collaborator
    wrapped: it compares with the variable of its own package. *)
Lemma Authenticate_db_not_found (now : Time) (email password : string) (w w1 : W) :
  NamedQueryStruct (SelectByEmail email) w = (Err (ErrorVar ErrDBNotFound), w1) →
  Authenticate now email password w
  = (Err (WrapError "selecting email[%q]: %w" [email] (ErrorVar ErrDBNotFound)), w1).
Proof. intros Hq. unfold Authenticate. rewrite Hq. reflexivity. Qed.

(** So does [Query]. *)
Lemma Query_db_not_found (pageNumber rowsPerPage : Z) (w w1 : W) :
  NamedQuerySlice
    (SelectPage (wrap_int (wrap_int (pageNumber - 1) * rowsPerPage)) rowsPerPage) w
  = (Err (ErrorVar ErrDBNotFound), w1) →
  Query pageNumber rowsPerPage w
  = (Err (WrapError "selecting users: %w" [] (ErrorVar ErrDBNotFound)), w1).
Proof. intros Hq. unfold Query. rewrite Hq. reflexivity. Qed.

(** [QueryByID] translates the condition to the not-found error of the
    store. *)
Lemma QueryByID_db_not_found `{Validator} `{AuthRoles}
    (claims : Claims) (userID : string) (w w1 : W) :
  CheckID userID = None → owner_or_admin claims userID →
  NamedQueryStruct (SelectByID userID) w = (Err (ErrorVar ErrDBNotFound), w1) →
  QueryByID claims userID w = (Err (ErrorVar ErrNotFound), w1).
Proof.
  intros Hid Hown Hq. unfold QueryByID. rewrite Hid.
  apply ownership_test_false in Hown. rewrite Hown, Hq. reflexivity.
Qed.
End AuthenticateProperties.

(** C2, on the code: with the stored hash matching, [Authenticate] returns
    claims whose subject is the stored user ID and whose roles are the stored
    roles, but the expiry is the wall clock plus one hour and the issued-at
    the wall clock, whatever the supplied [now]: here [now] is a day in 2019
    and the wall clock reads 1700000000.25 s. *)
Theorem Authenticate_expiry_from_wall_clock :
  let _ : Bcrypt := sim_bcrypt in
  let now := 1553385600 * Second in
  let claims := {| Claims_Issuer := "service project";
                   Claims_Subject := User_ID alice;
                   Claims_ExpiresAt := Some (1700000000 * Second + Hour);
                   Claims_IssuedAt := Some (1700000000 * Second);
                   Claims_Roles := User_Roles alice |} in
  fst (Authenticate now "a@x.com" "secret" sim0) = Ok claims
  ∧ Claims_ExpiresAt claims ≠ Some (now + Hour)
  ∧ Claims_IssuedAt claims ≠ Some now.
Proof.
  intros B now claims. split; [vm_compute; reflexivity|].
  split; vm_compute; discriminate.
Qed.

(** C6, on the code: for an email no user has, the collaborator reports its
    not-found condition and [Authenticate] returns it wrapped, not the
    not-found error of the store; [QueryByID] on an identifier no user has
    returns the not-found error. *)
Theorem Authenticate_not_found_wrapped :
  let _ : Bcrypt := sim_bcrypt in
  let _ : Validator := sim_validator in
  let _ : AuthRoles := sim_roles in
  let now := 1700000000 * Second in
  NamedQueryStruct (SelectByEmail "nobody@x.com") sim0
  = (Err (ErrorVar ErrDBNotFound), sim0)
  ∧ Authenticate now "nobody@x.com" "secret" sim0
    = (Err (WrapError "selecting email[%q]: %w" ["nobody@x.com"]
              (ErrorVar ErrDBNotFound)), sim0)
  ∧ fst (Authenticate now "nobody@x.com" "secret" sim0) ≠ Err (ErrorVar ErrNotFound)
  ∧ QueryByID (claims_of bob) (sim_id 7) sim0 = (Err (ErrorVar ErrNotFound), sim0).
Proof.
  intros B V R now.
  split; [vm_compute; reflexivity|].
  split; [vm_compute; reflexivity|].
  split; [vm_compute; discriminate | vm_compute; reflexivity].
Qed.

(** ** The token codec *)

Lemma as_strings_JString (l : list string) :
  mapM as_string (map JString l) = Some l.
Proof.
  induction l as [|x l IH]; [reflexivity|].
  simpl. rewrite IH. reflexivity.
Qed.

(** The payload decodes to the claims it was made from. *)
Lemma claims_of_to_JSON (c : Claims) : claims_of_JSON (claims_to_JSON c) = Some c.
Proof.
  destruct c as [iss sub [exp|] [iat|] roles]; unfold claims_of_JSON, claims_to_JSON;
    simpl; unfold number_member, member; simpl;
    rewrite as_strings_JString; reflexivity.
Qed.

(** A token issued with the active key pair parses to the claims it was
    issued for whenever the current time is in their validity window. *)
Lemma Parse_Issue `{SignatureScheme} (ks : Keys) (now : Time) (c : Claims)
    (kp : KeyPair) :
  key_pairs ks !! active_kid ks = Some kp →
  key_pair_sound kp →
  ∃ t, Issue ks c = Ok t
       ∧ Parse ks now t
         = if in_validity_window now c then Ok c
           else Err (auth_error "outside the validity window").
Proof.
  intros Hkp Hsound. unfold Issue. rewrite Hkp. eexists. split; [reflexivity|].
  unfold Parse. cbn [token_kid token_payload token_signature].
  rewrite Hkp, Hsound, claims_of_to_JSON. reflexivity.
Qed.

(** C3, as the specification of the codec has it: for every valid Claims
    value whose issued-at is not after the current time and whose expiry is
    strictly after it, issuing a token with an available, sound key pair and
    parsing it yields the claims issued, so exactly the original subject and
    the original roles. *)
Theorem Parse_Issue_roundtrip `{SignatureScheme} (ks : Keys) (now : Time)
    (c : Claims) (kp : KeyPair) (iat exp : Time) :
  key_pairs ks !! active_kid ks = Some kp →
  key_pair_sound kp →
  Claims_IssuedAt c = Some iat →
  Claims_ExpiresAt c = Some exp →
  iat < exp →
  Claims_Subject c ≠ "" →
  iat ≤ now →
  now < exp →
  ∃ t c', Issue ks c = Ok t
          ∧ Parse ks now t = Ok c'
          ∧ c' = c
          ∧ Claims_Subject c' = Claims_Subject c
          ∧ Claims_Roles c' = Claims_Roles c.
Proof.
  intros Hkp Hsound Hiat Hexp Hlt Hsub Hle Hnow.
  destruct (Parse_Issue ks now c kp Hkp Hsound) as (t & Hissue & Hparse).
  exists t, c. split; [exact Hissue|]. split; [|auto].
  rewrite Hparse. unfold in_validity_window. rewrite Hiat, Hexp. simpl.
  rewrite (proj2 (Z.leb_le iat now) Hle), (proj2 (Z.ltb_lt now exp) Hnow).
  reflexivity.
Qed.

Lemma sim_keys_sound : @key_pair_sound sim_signature (@mkKeyPair sim_signature 7%N 7%N).
Proof. intros kid payload. simpl. apply String.eqb_refl. Qed.

Lemma Parse_Issue_roundtrip_witness :
  let c := claims_of alice in
  let kp := @mkKeyPair sim_signature 7%N 7%N in
  let iat := 1700000000 * Second in
  let exp := 1700003600 * Second in
  let now := 1700000001 * Second in
  (key_pairs sim_keys !! active_kid sim_keys = Some kp
   ∧ @key_pair_sound sim_signature kp
   ∧ Claims_IssuedAt c = Some iat
   ∧ Claims_ExpiresAt c = Some exp
   ∧ iat < exp
   ∧ Claims_Subject c ≠ ""
   ∧ iat ≤ now
   ∧ now < exp)
  ∧ ∃ t c', Issue sim_keys c = Ok t
            ∧ Parse sim_keys now t = Ok c'
            ∧ c' = c
            ∧ Claims_Subject c' = Claims_Subject c
            ∧ Claims_Roles c' = Claims_Roles c.
Proof.
  intros c kp iat exp now.
  assert (Hkp : key_pairs sim_keys !! active_kid sim_keys = Some kp)
    by (vm_compute; reflexivity).
  assert (Hiat : Claims_IssuedAt c = Some iat) by reflexivity.
  assert (Hexp : Claims_ExpiresAt c = Some exp) by reflexivity.
  assert (Hlt : iat < exp) by (vm_compute; reflexivity).
  assert (Hsub : Claims_Subject c ≠ "") by (vm_compute; discriminate).
  assert (Hle : iat ≤ now) by (vm_compute; discriminate).
  assert (Hnow : now < exp) by (vm_compute; reflexivity).
  split; [repeat split; auto; apply sim_keys_sound|].
  exact (@Parse_Issue_roundtrip sim_signature sim_keys now c kp iat exp
           Hkp sim_keys_sound Hiat Hexp Hlt Hsub Hle Hnow).
Defined.

(** C3, as stated, fails on the codec of the specification: claims that
    satisfy the invariant of Claims and expire after the current time, but
    are issued after it, are refused by [Parse], for the current time is
    outside the validity window. *)
Lemma Parse_refuses_before_issued_at :
  let c := claims_of alice in
  let now := 1699999999 * Second in
  valid_claims c
  ∧ (∃ exp, Claims_ExpiresAt c = Some exp ∧ now < exp)
  ∧ ∃ t, @Issue sim_signature sim_keys c = Ok t
         ∧ @Parse sim_signature sim_keys now t
           = Err (auth_error "outside the validity window").
Proof.
  intros c now. split; [|split].
  - exists (1700000000 * Second), (1700003600 * Second).
    repeat split; try (vm_compute; discriminate).
  - exists (1700003600 * Second). split; [reflexivity | vm_compute; reflexivity].
  - destruct (@Parse_Issue sim_signature sim_keys now c
                (@mkKeyPair sim_signature 7%N 7%N)) as (t & Hi & Hp).
    + vm_compute. reflexivity.
    + apply sim_keys_sound.
    + exists t. split; [exact Hi|]. rewrite Hp. vm_compute. reflexivity.
Qed.

(** ** The response writer *)

(** Once the response has started, a call is refused and writes nothing. *)
Lemma Respond_started (data : JSON) (statusCode : Z) (r : Request) :
  Values_Started (req_values r) = true →
  Respond data statusCode r = (Some (NewError "response already started"), r).
Proof. intros Hs. unfold Respond. rewrite Hs. reflexivity. Qed.

Lemma flag_trace_started (calls : list (JSON * Z)) (r : Request) :
  Values_Started (req_values r) = true →
  flag_trace calls r = replicate (S (length calls)) true.
Proof.
  intros Hs. induction calls as [|[data statusCode] calls IH].
  - simpl. rewrite Hs. reflexivity.
  - change (flag_trace ((data, statusCode) :: calls) r)
      with (Values_Started (req_values r)
            :: flag_trace calls (snd (Respond data statusCode r))).
    rewrite Respond_started by exact Hs. cbn [snd]. rewrite Hs, IH. reflexivity.
Qed.

Lemma rises_all_true (n : nat) : rises (replicate n true) = 0%nat.
Proof. induction n as [|n IH]; [reflexivity | exact IH]. Qed.

(** Every further call is refused, and the flag does not change. *)
Lemma Respond_all_started (calls : list (JSON * Z)) (r : Request) :
  Values_Started (req_values r) = true →
  Respond_all calls r
  = (map (λ _, Some (NewError "response already started")) calls, r)
  ∧ rises (flag_trace calls r) = 0%nat.
Proof.
  intros Hs. split.
  - induction calls as [|[data statusCode] calls IH]; [reflexivity|].
    simpl. rewrite Respond_started by exact Hs. rewrite IH. reflexivity.
  - rewrite flag_trace_started by exact Hs. apply rises_all_true.
Qed.

(** C4: for every request and every series of calls of the response writer
    for it, the flag "response already started" goes from false to true at
    most once; the first call writes its response and every later call is
    refused with an error and writes nothing, so exactly one response is on
    the wire once the writer was called. *)
Theorem Respond_at_most_once (traceID : string) (now : Time)
    (calls : list (JSON * Z)) :
  let r0 := new_request traceID now in
  let errs := fst (Respond_all calls r0) in
  let r := snd (Respond_all calls r0) in
  (rises (flag_trace calls r0) ≤ 1)%nat
  ∧ (length (req_wire r) ≤ 1)%nat
  ∧ match calls with
    | [] => req_wire r = [] ∧ Values_Started (req_values r) = false
    | (data, statusCode) :: rest =>
        req_wire r = [(statusCode, data)]
        ∧ Values_Started (req_values r) = true
        ∧ rises (flag_trace calls r0) = 1%nat
        ∧ errs = None :: map (λ _, Some (NewError "response already started")) rest
    end.
Proof.
  destruct calls as [|[data statusCode] rest].
  - cbn. repeat split; auto.
  - pose (r1 := {| req_values := {| Values_TraceID := traceID; Values_Now := now;
                                    Values_Claims := None; Values_Started := true |};
                   req_wire := [(statusCode, data)] |}).
    assert (Hfirst : Respond data statusCode (new_request traceID now) = (None, r1))
      by reflexivity.
    destruct (Respond_all_started rest r1 eq_refl) as [Hall _].
    assert (Hrun : Respond_all ((data, statusCode) :: rest) (new_request traceID now)
                   = (None :: map (λ _, Some (NewError "response already started")) rest,
                      r1)).
    { change (Respond_all ((data, statusCode) :: rest) (new_request traceID now))
        with (let '(err, r1) := Respond data statusCode (new_request traceID now) in
              let '(errs, r2) := Respond_all rest r1 in (err :: errs, r2)).
      rewrite Hfirst, Hall. reflexivity. }
    assert (Htrace : flag_trace ((data, statusCode) :: rest) (new_request traceID now)
                     = false :: replicate (S (length rest)) true).
    { change (flag_trace ((data, statusCode) :: rest) (new_request traceID now))
        with (false :: flag_trace rest
                         (snd (Respond data statusCode (new_request traceID now)))).
      rewrite Hfirst. cbn [snd]. rewrite (flag_trace_started rest r1 eq_refl).
      reflexivity. }
    assert (Hone : rises (false :: replicate (S (length rest)) true) = 1%nat).
    { change (rises (false :: replicate (S (length rest)) true))
        with (S (rises (replicate (S (length rest)) true))).
      rewrite rises_all_true. reflexivity. }
    cbv zeta. rewrite Hrun, Htrace, Hone. cbn [fst snd r1 req_wire req_values Values_Started length].
    repeat split; auto.
Qed.

(** The [Test] handler writes at most one response, and none when it
    returns its error. *)
Lemma Test_writes_at_most_once (n : Z) (traceID : string) (now : Time) :
  let res := Test n (new_request traceID now) in
  (fst res = None ∧ req_wire (snd res) = [(StatusOK, JObject [("Status", JString "OK")])])
  ∨ (fst res = Some (NewRequestError (NewError "trusted error") StatusBadRequest)
     ∧ req_wire (snd res) = []).
Proof.
  unfold Test. destruct (n `rem` 2 =? 0); simpl; auto.
Qed.

(** * Further properties of the code *)

(** ** [Cause] and [errors.Is] *)

(** If [Cause] returns within some number of iterations, the chain is
    finite. *)
Lemma Cause_returns_finite {E : Type} `{Unwrapper E} (fuel : nat)
    (err root : option E) :
  Cause fuel err = Some root → finite_chain err.
Proof.
  revert err. induction fuel as [|fuel IH]; intros err Hc; [discriminate|].
  simpl in Hc. destruct (errors_Unwrap err) as [e|] eqn:Hu.
  - destruct (IH (Some e) Hc) as [n Hn]. exists (S n).
    change (unwrap_n (S n) err) with (unwrap_n n (errors_Unwrap err)).
    rewrite Hu. exact Hn.
  - exists 1%nat. change (unwrap_n 1 err) with (errors_Unwrap err). exact Hu.
Qed.

(** X1: [Cause] returns exactly on the errors whose chain of wrapped errors
    is finite; on a chain that never reaches an error without [Unwrap] the
    loop runs for ever, whatever the number of iterations allowed. *)
Theorem Cause_returns_iff_finite {E : Type} `{Unwrapper E} (err : option E) :
  ((∃ fuel root, Cause fuel err = Some root) ↔ finite_chain err)
  ∧ ((∀ n, unwrap_n n err ≠ None) → ∀ fuel, Cause fuel err = None).
Proof.
  split; [split|].
  - intros (fuel & root & Hc). eapply Cause_returns_finite. exact Hc.
  - intros [n Hn]. destruct (Cause_terminates n err Hn) as (root & Hc & _).
    eauto.
  - intros Hinf fuel. destruct (Cause fuel err) as [root|] eqn:Hc; [|reflexivity].
    destruct (Cause_returns_finite fuel err root Hc) as [n Hn].
    destruct (Hinf n Hn).
Qed.

(** An error that wraps itself: no number of iterations is enough. *)
Example Cause_cyclic (fuel : nat) : @Cause unit cyclic_unwrapper fuel (Some tt) = None.
Proof. induction fuel as [|fuel IH]; [reflexivity | exact IH]. Qed.

(** On the errors of the service the loop ends at [error_root]. *)
Lemma Cause_error_root (e : error) (n : nat) :
  (chain_depth e < n)%nat → Cause n (Some e) = Some (Some (error_root e)).
Proof.
  revert n.
  induction e as [v|text|format args e IH|fe|e1 IH1 status fields];
    intros n Hn; (destruct n as [|n]; [lia|]); try reflexivity.
  simpl in Hn. change (Cause (S n) (Some (WrapError format args e)))
    with (Cause n (Some e)).
  apply IH. lia.
Qed.

Lemma errors_Is_root (e : error) (v : ErrVar) :
  errors_Is e v = true ↔ error_root e = ErrorVar v.
Proof.
  induction e as [v'|text|format args e IH|fe|e1 IH1 status fields]; simpl;
    try (split; intros Hx; discriminate).
  - rewrite bool_decide_eq_true. split; [intros -> | intros [= ->]]; reflexivity.
  - exact IH.
Qed.

(** X2: for the errors of the service, [errors.Is(err, v)] on a package-level
    error variable [v] holds exactly when [Cause(err)] is [v]; and wrapping
    an error with [fmt.Errorf] and [%w] does not change its cause. *)
Theorem errors_Is_iff_Cause (e : error) (v : ErrVar) :
  (errors_Is e v = true
   ↔ Cause (S (chain_depth e)) (Some e) = Some (Some (ErrorVar v)))
  ∧ ∀ format args,
      Cause (S (S (chain_depth e))) (Some (WrapError format args e))
      = Cause (S (chain_depth e)) (Some e).
Proof.
  split.
  - rewrite Cause_error_root by lia. rewrite errors_Is_root.
    split; [intros -> | intros [= ->]]; reflexivity.
  - intros format args. reflexivity.
Qed.

(** ** The map of [Fields] *)

Lemma Fields_loop_last (l : list FieldError) (m : gmap string string)
    (name : string) :
  foldl (λ m fld, <[FieldError_Field fld := FieldError_Error fld]> m) m l !! name
  = match last (filter (λ fld, FieldError_Field fld = name) l) with
    | Some fld => Some (FieldError_Error fld)
    | None => m !! name
    end.
Proof.
  revert m. induction l as [|x l IH]; intros m; [reflexivity|].
  simpl. rewrite IH. rewrite filter_cons.
  destruct (decide (FieldError_Field x = name)) as [Heq | Hne].
  - rewrite last_cons.
    destruct (last (filter (λ fld, FieldError_Field fld = name) l)); [reflexivity|].
    rewrite <- Heq. apply lookup_insert_eq.
  - destruct (last (filter (λ fld, FieldError_Field fld = name) l)); [reflexivity|].
    apply lookup_insert_ne. exact Hne.
Qed.

(** X3: [Fields] maps a field name to the message of the last field error
    with that name, and has no entry for a name no field error has; it holds
    at most as many entries as there are field errors. *)
Theorem Fields_last_wins (fe : FieldErrors) (name : string) :
  FieldErrors_Fields fe !! name
  = FieldError_Error
      <$> last (filter (λ fld, FieldError_Field fld = name) (elems fe))
  ∧ (size (FieldErrors_Fields fe) ≤ length (elems fe))%nat.
Proof.
  split.
  - unfold FieldErrors_Fields. rewrite Fields_loop_last.
    destruct (last (filter (λ fld, FieldError_Field fld = name) (elems fe)));
      [reflexivity | apply lookup_empty].
  - unfold FieldErrors_Fields.
    assert (Hgen : ∀ (l : list FieldError) (m : gmap string string),
              (size (foldl (λ m fld, <[FieldError_Field fld := FieldError_Error fld]> m)
                           m l) ≤ size m + length l)%nat).
    { induction l as [|x l IH]; intros m; simpl; [lia|].
      etransitivity; [apply IH|].
      pose proof (map_size_insert (FieldError_Field x) (FieldError_Error x) m) as Hs.
      destruct (m !! FieldError_Field x); unfold id in Hs; lia. }
    specialize (Hgen (elems fe) ∅). rewrite map_size_empty in Hgen. exact Hgen.
Qed.

(** ** The errors of the store *)

Lemma Cause_wrap (format : string) (args : list string) (e : error) :
  Cause (S (chain_depth (WrapError format args e)))
        (Some (WrapError format args e))
  = Cause (S (chain_depth e)) (Some e).
Proof. reflexivity. Qed.

(** X4: an error of the database comes back from the store with its root
    cause kept, so [Cause] of what [Delete], [Query], [QueryByEmail] and
    [Authenticate] return is [Cause] of the error of the database; only
    [QueryByID] replaces the not-found condition by the not-found error of
    the store. *)
Theorem store_errors_keep_cause {W : Type} `{Persistence W} `{Runtime W}
    `{Bcrypt} `{Validator} `{AuthRoles} (claims : Claims) (w : W) :
  (∀ userID err w',
     CheckID userID = None → owner_or_admin claims userID →
     NamedExecContext (DeleteUser userID) w = (Some err, w') →
     ∃ e, Delete claims userID w = (Some e, w')
          ∧ Cause (S (chain_depth e)) (Some e)
            = Cause (S (chain_depth err)) (Some err))
  ∧ (∀ pageNumber rowsPerPage err w',
       NamedQuerySlice
         (SelectPage (wrap_int (wrap_int (pageNumber - 1) * rowsPerPage))
                     rowsPerPage) w = (Err err, w') →
       ∃ e, Query pageNumber rowsPerPage w = (Err e, w')
            ∧ Cause (S (chain_depth e)) (Some e)
              = Cause (S (chain_depth err)) (Some err))
  ∧ (∀ email err w',
       NamedQueryStruct (SelectByEmail email) w = (Err err, w') →
       (∃ e, QueryByEmail claims email w = (Err e, w')
             ∧ Cause (S (chain_depth e)) (Some e)
               = Cause (S (chain_depth err)) (Some err))
       ∧ (∀ now password,
            ∃ e, Authenticate now email password w = (Err e, w')
                 ∧ Cause (S (chain_depth e)) (Some e)
                   = Cause (S (chain_depth err)) (Some err)))
  ∧ (∀ userID err w',
       CheckID userID = None → owner_or_admin claims userID →
       NamedQueryStruct (SelectByID userID) w = (Err err, w') →
       ∃ e, QueryByID claims userID w = (Err e, w')
            ∧ Cause (S (chain_depth e)) (Some e)
              = if error_is_var err ErrDBNotFound
                then Some (Some (ErrorVar ErrNotFound))
                else Cause (S (chain_depth err)) (Some err)).
Proof.
  split; [|split; [|split]].
  - intros userID err w' Hid Hown Hx.
    rewrite (Delete_proceeds claims userID w Hid Hown), Hx.
    eexists. split; [reflexivity | apply Cause_wrap].
  - intros pageNumber rowsPerPage err w' Hx. unfold Query. rewrite Hx.
    destruct err as [[]| | | |]; simpl; eexists; split; reflexivity.
  - intros email err w' Hx. split.
    + unfold QueryByEmail. rewrite Hx.
      eexists. split; [reflexivity | apply Cause_wrap].
    + intros now password. unfold Authenticate. rewrite Hx.
      destruct err as [[]| | | |]; simpl; eexists; split; reflexivity.
  - intros userID err w' Hid Hown Hx. unfold QueryByID. rewrite Hid.
    apply ownership_test_false in Hown. rewrite Hown, Hx.
    destruct (error_is_var err ErrDBNotFound); eexists; split; reflexivity.
Qed.

(** X5: [QueryByID] and [QueryByEmail] return a user only to an admin or to
    the user themselves, whatever the database answers, and the user they
    return is the row the database returned. *)
Theorem query_returns_only_permitted {W : Type} `{Persistence W} `{Validator}
    `{AuthRoles} (claims : Claims) (w : W) :
  (∀ userID usr w',
     QueryByID claims userID w = (Ok usr, w') →
     owner_or_admin claims (User_ID usr)
     ∧ owner_or_admin claims userID
     ∧ CheckID userID = None
     ∧ NamedQueryStruct (SelectByID userID) w = (Ok usr, w'))
  ∧ (∀ email usr w',
       QueryByEmail claims email w = (Ok usr, w') →
       owner_or_admin claims (User_ID usr)
       ∧ NamedQueryStruct (SelectByEmail email) w = (Ok usr, w')).
Proof.
  split.
  - intros userID usr w'. unfold QueryByID.
    destruct (CheckID userID); [discriminate|].
    destruct (negb (Authorized claims RoleAdmin)
              && negb (String.eqb (Claims_Subject claims) userID)) eqn:Hown1;
      [discriminate|].
    destruct (NamedQueryStruct (SelectByID userID) w) as [[u|err] w1].
    + destruct (negb (Authorized claims RoleAdmin)
                && negb (String.eqb (Claims_Subject claims) (User_ID u))) eqn:Hown2;
        [discriminate|].
      intros [= <- <-]. apply ownership_test_false in Hown1, Hown2. auto.
    + destruct (error_is_var err ErrDBNotFound); discriminate.
  - intros email usr w'. unfold QueryByEmail.
    destruct (NamedQueryStruct (SelectByEmail email) w) as [[u|err] w1];
      [|discriminate].
    destruct (negb (Authorized claims RoleAdmin)
              && negb (String.eqb (Claims_Subject claims) (User_ID u))) eqn:Hown;
      [discriminate|].
    intros [= <- <-]. apply ownership_test_false in Hown. auto.
Qed.

(** X6: when the database reports its not-found condition for the user,
    [Update] returns the not-found error of the store wrapped with the user
    ID, not the error itself: [QueryByID] has translated the condition
    before [Update] tests for it with [errors.Is]. *)
Theorem Update_not_found_wrapped {W : Type} `{Persistence W} `{Runtime W}
    `{Validator} `{AuthRoles}
    (claims : Claims) (userID : string) (uu : UpdateUser) (now : Time) (w w1 : W) :
  CheckID userID = None →
  Check_UpdateUser uu = None →
  owner_or_admin claims userID →
  NamedQueryStruct (SelectByID userID) w = (Err (ErrorVar ErrDBNotFound), w1) →
  Update claims userID uu now w
  = (Some (WrapError "updating user userID[%s]: %w" [userID] (ErrorVar ErrNotFound)),
     w1)
  ∧ fst (Update claims userID uu now w) ≠ Some (ErrorVar ErrNotFound).
Proof.
  intros Hid Hck Hown Hq.
  assert (Hrun : Update claims userID uu now w
                 = (Some (WrapError "updating user userID[%s]: %w" [userID]
                            (ErrorVar ErrNotFound)), w1)).
  { unfold Update. rewrite Hid, Hck. unfold QueryByID. rewrite Hid.
    apply ownership_test_false in Hown. rewrite Hown, Hq. reflexivity. }
  split; [exact Hrun|]. rewrite Hrun. discriminate.
Qed.

Lemma Update_not_found_wrapped_witness :
  let _ : Validator := sim_validator in
  let _ : AuthRoles := sim_roles in
  let claims := claims_of bob in
  let userID := sim_id 7 in
  let uu := {| UpdateUser_Name := Some "Carol"; UpdateUser_Email := None;
               UpdateUser_Roles := None; UpdateUser_Password := None |} in
  let now := 1700000000 * Second in
  (CheckID userID = None
   ∧ Check_UpdateUser uu = None
   ∧ owner_or_admin claims userID
   ∧ NamedQueryStruct (SelectByID userID) sim0 = (Err (ErrorVar ErrDBNotFound), sim0))
  ∧ Update claims userID uu now sim0
    = (Some (WrapError "updating user userID[%s]: %w" [userID] (ErrorVar ErrNotFound)),
       sim0)
  ∧ fst (Update claims userID uu now sim0) ≠ Some (ErrorVar ErrNotFound).
Proof.
  intros V R claims userID uu now.
  assert (Hid : CheckID userID = None) by (vm_compute; reflexivity).
  assert (Hck : Check_UpdateUser uu = None) by (vm_compute; reflexivity).
  assert (Hown : owner_or_admin claims userID) by (left; vm_compute; reflexivity).
  assert (Hq : NamedQueryStruct (SelectByID userID) sim0
               = (Err (ErrorVar ErrDBNotFound), sim0)) by (vm_compute; reflexivity).
  split; [auto|].
  exact (Update_not_found_wrapped claims userID uu now sim0 sim0 Hid Hck Hown Hq).
Defined.

(** ** Authentication, continued *)

(** X7: [Authenticate] returns claims only for a user the database returned
    for the email and whose stored hash bcrypt accepts for the password, and
    the claims carry the ID and the roles of that user; when bcrypt refuses,
    the result is the authentication failure, the error of bcrypt is not
    handed on and the clock is not read. *)
Theorem Authenticate_sound {W : Type} `{Persistence W} `{Runtime W} `{Bcrypt}
    (now : Time) (email password : string) (w : W) :
  (∀ claims w',
     Authenticate now email password w = (Ok claims, w') →
     ∃ usr w1,
       NamedQueryStruct (SelectByEmail email) w = (Ok usr, w1)
       ∧ bcrypt_CompareHashAndPassword (User_PasswordHash usr) password = None
       ∧ Claims_Subject claims = User_ID usr
       ∧ Claims_Roles claims = User_Roles usr
       ∧ Claims_Issuer claims = "service project")
  ∧ (∀ usr w1 e,
       NamedQueryStruct (SelectByEmail email) w = (Ok usr, w1) →
       bcrypt_CompareHashAndPassword (User_PasswordHash usr) password = Some e →
       Authenticate now email password w
       = (Err (ErrorVar ErrAuthenticationFailure), w1)).
Proof.
  split.
  - intros claims w'. unfold Authenticate.
    destruct (NamedQueryStruct (SelectByEmail email) w) as [[usr|err] w1].
    + destruct (bcrypt_CompareHashAndPassword (User_PasswordHash usr) password)
        eqn:Hpw; [discriminate|].
      destruct (time_Now w1) as [t1 w2]. destruct (time_Now w2) as [t2 w3].
      intros [= <- <-]. exists usr, w1. auto.
    + destruct (error_is_var err ErrNotFound); discriminate.
  - intros usr w1 e Hq Hpw. unfold Authenticate. rewrite Hq, Hpw. reflexivity.
Qed.

Lemma NewNumericDate_whole (t : Time) : NewNumericDate t `mod` Second = 0.
Proof.
  unfold NewNumericDate, Time_Truncate, Second.
  rewrite Zminus_mod, Zmod_mod, Z.sub_diag. reflexivity.
Qed.

Lemma NewNumericDate_add_hour (t : Time) :
  NewNumericDate (Time_Add t Hour) = NewNumericDate t + Hour.
Proof.
  unfold NewNumericDate, Time_Truncate, Time_Add, Hour.
  rewrite Z_mod_plus_full. lia.
Qed.

Lemma NewNumericDate_bounds (t : Time) :
  NewNumericDate t ≤ t < NewNumericDate t + Second.
Proof.
  unfold NewNumericDate, Time_Truncate, Second.
  pose proof (Z.mod_pos_bound t 1000000000 ltac:(lia)). lia.
Qed.

Lemma NewNumericDate_mono (t1 t2 : Time) :
  t1 ≤ t2 → NewNumericDate t1 ≤ NewNumericDate t2.
Proof.
  intros Hle. unfold NewNumericDate, Time_Truncate, Second.
  pose proof (Z.div_le_mono t1 t2 1000000000 ltac:(lia) Hle).
  pose proof (Z.div_mod t1 1000000000 ltac:(lia)).
  pose proof (Z.div_mod t2 1000000000 ltac:(lia)). lia.
Qed.

(** X8: the time stamps of the claims of [Authenticate] are whole seconds:
    the expiry is the first reading of the clock, truncated, plus one hour,
    and the issued-at is the second reading, truncated.  With a clock that
    does not run backwards the token lives an hour at most, and the expiry is
    after the issued-at whenever no more than 59 min 59 s pass between the two
    readings. *)
Theorem Authenticate_lifetime {W : Type} `{Persistence W} `{Runtime W} `{Bcrypt}
    (now : Time) (email password : string) (w w' : W) (claims : Claims) :
  Authenticate now email password w = (Ok claims, w') →
  ∃ usr w1 w2 t1 t2 exp iat,
    NamedQueryStruct (SelectByEmail email) w = (Ok usr, w1)
    ∧ time_Now w1 = (t1, w2)
    ∧ time_Now w2 = (t2, w')
    ∧ Claims_ExpiresAt claims = Some exp
    ∧ Claims_IssuedAt claims = Some iat
    ∧ exp = NewNumericDate t1 + Hour
    ∧ iat = NewNumericDate t2
    ∧ exp `mod` Second = 0
    ∧ iat `mod` Second = 0
    ∧ (t1 ≤ t2 → exp - iat ≤ Hour)
    ∧ (t2 - t1 ≤ Hour - Second → iat < exp).
Proof.
  unfold Authenticate.
  destruct (NamedQueryStruct (SelectByEmail email) w) as [[usr|err] w1];
    [|destruct (error_is_var err ErrNotFound); discriminate].
  destruct (bcrypt_CompareHashAndPassword (User_PasswordHash usr) password);
    [discriminate|].
  destruct (time_Now w1) as [t1 w2] eqn:Ht1.
  destruct (time_Now w2) as [t2 w3] eqn:Ht2.
  intros [= <- <-].
  exists usr, w1, w2, t1, t2, (NewNumericDate t1 + Hour), (NewNumericDate t2).
  cbn [Claims_ExpiresAt Claims_IssuedAt].
  rewrite NewNumericDate_add_hour.
  repeat split; try reflexivity; try assumption.
  - unfold Hour. rewrite Z_mod_plus_full. apply NewNumericDate_whole.
  - apply NewNumericDate_whole.
  - intros Hle. pose proof (NewNumericDate_mono t1 t2 Hle). lia.
  - intros Hgap.
    pose proof (NewNumericDate_bounds t1) as Hb1.
    pose proof (NewNumericDate_bounds t2) as Hb2.
    pose proof (NewNumericDate_whole t1) as Hw1.
    pose proof (NewNumericDate_whole t2) as Hw2.
    unfold Hour, Second in *.
    apply Z.mod_divide in Hw1 as [k1 Hk1]; [|lia].
    apply Z.mod_divide in Hw2 as [k2 Hk2]; [|lia].
    lia.
Qed.

Lemma Authenticate_lifetime_witness :
  let _ : Bcrypt := sim_bcrypt in
  let now := 1553385600 * Second in
  let res := Authenticate now "a@x.com" "secret" sim0 in
  (∃ claims w', res = (Ok claims, w'))
  ∧ ∃ claims usr w1 w2 w' t1 t2 exp iat,
      res = (Ok claims, w')
      ∧ NamedQueryStruct (SelectByEmail "a@x.com") sim0 = (Ok usr, w1)
      ∧ time_Now w1 = (t1, w2)
      ∧ time_Now w2 = (t2, w')
      ∧ Claims_ExpiresAt claims = Some exp
      ∧ Claims_IssuedAt claims = Some iat
      ∧ exp = NewNumericDate t1 + Hour
      ∧ iat = NewNumericDate t2
      ∧ exp `mod` Second = 0
      ∧ iat `mod` Second = 0
      ∧ (t1 ≤ t2 → exp - iat ≤ Hour)
      ∧ (t2 - t1 ≤ Hour - Second → iat < exp).
Proof.
  intros B now res.
  destruct res as [[claims|err] w'] eqn:Hres; [|vm_compute in Hres; discriminate].
  split; [eauto|].
  destruct (Authenticate_lifetime now "a@x.com" "secret" sim0 w' claims Hres)
    as (usr & w1 & w2 & t1 & t2 & exp & iat & Hx).
  exists claims, usr, w1, w2, w', t1, t2, exp, iat. split; [reflexivity | exact Hx].
Defined.

(** ** The store on the in-memory table *)




(** The rows a DELETE leaves: none with the identifier, the others as they
    were. *)
Lemma find_after_delete (userID id : string) (l : list User) :
  find (has_id id) (filter (λ old, has_id userID old = false) l)
  = if String.eqb id userID then None else find (has_id id) l.
Proof.
  induction l as [|x l IH]; simpl.
  - destruct (String.eqb id userID); reflexivity.
  - rewrite filter_cons. destruct (decide (has_id userID x = false)) as [Hx | Hx].
    + simpl. rewrite IH. destruct (String.eqb_spec id userID) as [-> | Hne].
      * rewrite Hx. reflexivity.
      * reflexivity.
    + apply not_false_is_true in Hx. rewrite IH.
      destruct (String.eqb_spec id userID) as [-> | Hne]; [reflexivity|].
      apply has_id_true in Hx.
      destruct (has_id id x) eqn:Hid; [|reflexivity].
      apply has_id_true in Hid. congruence.
Qed.

(** X9: on the users table, [Delete] by an admin or by the user themselves
    returns nil whether the user exists or not, leaves no user under the
    identifier and the other users as they were, executes the one DELETE
    statement, and a [QueryByID] afterwards answers with the not-found
    error. *)
Theorem Delete_removes `{Validator} `{AuthRoles}
    (claims : Claims) (userID : string) (w : Sim) :
  CheckID userID = None →
  owner_or_admin claims userID →
  fst (Delete claims userID w) = None
  ∧ stored (snd (Delete claims userID w)) userID = None
  ∧ (∀ id, id ≠ userID → stored (snd (Delete claims userID w)) id = stored w id)
  ∧ sim_journal (snd (Delete claims userID w))
    = (sim_journal w ++ [DeleteUser userID])%list
  ∧ QueryByID claims userID (snd (Delete claims userID w))
    = (Err (ErrorVar ErrNotFound), snd (Delete claims userID w)).
Proof.
  intros Hid Hown. rewrite (Delete_proceeds claims userID w Hid Hown).
  change (NamedExecContext (DeleteUser userID) w)
    with (None : goerror,
          sim_with_users (filter (λ old, has_id userID old = false) (sim_users w))
                         (DeleteUser userID) w).
  cbn [fst snd].
  assert (Hgone : stored (sim_with_users
                            (filter (λ old, has_id userID old = false) (sim_users w))
                            (DeleteUser userID) w) userID = None).
  { unfold stored. cbn [sim_with_users sim_users].
    rewrite find_after_delete, String.eqb_refl. reflexivity. }
  split; [reflexivity|]. split; [exact Hgone|]. split; [|split; [reflexivity|]].
  - intros id Hne. unfold stored. cbn [sim_with_users sim_users].
    rewrite find_after_delete.
    destruct (String.eqb_spec id userID); [contradiction | reflexivity].
  - unfold QueryByID. rewrite Hid.
    apply ownership_test_false in Hown. rewrite Hown.
    match goal with
    | |- context [NamedQueryStruct ?q ?w1] =>
        change (NamedQueryStruct q w1)
          with (sim_query_one q (sim_users w1), w1)
    end.
    unfold sim_query_one. unfold stored in Hgone. rewrite Hgone. reflexivity.
Qed.

Lemma Delete_removes_witness :
  let _ : Validator := sim_validator in
  let _ : AuthRoles := sim_roles in
  let claims := claims_of bob in
  let userID := User_ID alice in
  (CheckID userID = None ∧ owner_or_admin claims userID)
  ∧ fst (Delete claims userID sim0) = None
  ∧ stored (snd (Delete claims userID sim0)) userID = None
  ∧ (∀ id, id ≠ userID → stored (snd (Delete claims userID sim0)) id = stored sim0 id)
  ∧ sim_journal (snd (Delete claims userID sim0))
    = (sim_journal sim0 ++ [DeleteUser userID])%list
  ∧ QueryByID claims userID (snd (Delete claims userID sim0))
    = (Err (ErrorVar ErrNotFound), snd (Delete claims userID sim0)).
Proof.
  intros V R claims userID.
  assert (Hid : CheckID userID = None) by (vm_compute; reflexivity).
  assert (Hown : owner_or_admin claims userID) by (left; vm_compute; reflexivity).
  split; [auto|]. exact (Delete_removes claims userID sim0 Hid Hown).
Defined.






Lemma wrap_int_small (z : Z) : - 2 ^ 63 ≤ z < 2 ^ 63 → wrap_int z = z.
Proof. intros Hz. unfold wrap_int. rewrite Z.mod_small; lia. Qed.

Lemma id_le_transitive : Transitive id_le.
Proof. intros u v x. unfold id_le. apply transitivity. Qed.

Lemma id_le_total : Total id_le.
Proof. intros u v. unfold id_le. apply total, _. Qed.

(** X12: on the users table, [Query] for a page number from 1 on and a
    page size that is not negative returns the rows of that page in the order
    of the user IDs: at most [rowsPerPage] users, all of them stored, sorted,
    and exactly the rows that follow those of the pages before. *)
Theorem Query_page (pageNumber rowsPerPage : Z) (w : Sim) :
  1 ≤ pageNumber < 2 ^ 63 →
  0 ≤ rowsPerPage →
  (pageNumber - 1) * rowsPerPage < 2 ^ 63 →
  let rows := merge_sort id_le (sim_users w) in
  let before := Z.to_nat ((pageNumber - 1) * rowsPerPage) in
  let page := take (Z.to_nat rowsPerPage) (drop before rows) in
  Query pageNumber rowsPerPage w = (Ok page, w)
  ∧ (length page ≤ Z.to_nat rowsPerPage)%nat
  ∧ (∀ u, u ∈ page → u ∈ sim_users w)
  ∧ StronglySorted id_le page
  ∧ (take before rows ++ page)%list
    = take (Z.to_nat (pageNumber * rowsPerPage)) rows.
Proof.
  intros Hp Hr Hbound rows before page.
  assert (Hoff : wrap_int (wrap_int (pageNumber - 1) * rowsPerPage)
                 = (pageNumber - 1) * rowsPerPage).
  { rewrite (wrap_int_small (pageNumber - 1)) by lia.
    apply wrap_int_small. nia. }
  split; [|split; [|split; [|split]]].
  - unfold Query. rewrite Hoff.
    change (NamedQuerySlice (SelectPage ((pageNumber - 1) * rowsPerPage) rowsPerPage) w)
      with (sim_query_many (SelectPage ((pageNumber - 1) * rowsPerPage) rowsPerPage)
                           (sim_users w), w).
    unfold sim_query_many.
    destruct (Z.ltb_spec ((pageNumber - 1) * rowsPerPage) 0); [nia|].
    destruct (Z.ltb_spec rowsPerPage 0); [lia|]. reflexivity.
  - unfold page. rewrite length_take. lia.
  - intros u Hu. unfold page in Hu.
    pose proof (elem_of_sublist _ _ _ Hu (sublist_take _ _)) as Hu1.
    pose proof (elem_of_sublist _ _ _ Hu1 (sublist_drop _ _)) as Hu2.
    unfold rows in Hu2. rewrite merge_sort_Permutation in Hu2. exact Hu2.
  - assert (Hs : StronglySorted id_le rows).
    { apply StronglySorted_merge_sort;
        [apply id_le_transitive | apply id_le_total]. }
    rewrite <- (take_drop before rows) in Hs.
    apply StronglySorted_app_1_r in Hs.
    rewrite <- (take_drop (Z.to_nat rowsPerPage) (drop before rows)) in Hs.
    apply StronglySorted_app_1_l in Hs. exact Hs.
  - unfold page. rewrite take_take_drop. f_equal. unfold before.
    rewrite <- Z2Nat.inj_add by nia. f_equal. lia.
Qed.

Lemma Query_page_witness :
  let pageNumber := 2 in
  let rowsPerPage := 1 in
  let rows := merge_sort id_le (sim_users sim0) in
  let before := Z.to_nat ((pageNumber - 1) * rowsPerPage) in
  let page := take (Z.to_nat rowsPerPage) (drop before rows) in
  (1 ≤ pageNumber < 2 ^ 63
   ∧ 0 ≤ rowsPerPage
   ∧ (pageNumber - 1) * rowsPerPage < 2 ^ 63)
  ∧ page = [alice]
  ∧ Query pageNumber rowsPerPage sim0 = (Ok page, sim0)
  ∧ (length page ≤ Z.to_nat rowsPerPage)%nat
  ∧ (∀ u, u ∈ page → u ∈ sim_users sim0)
  ∧ StronglySorted id_le page
  ∧ (take before rows ++ page)%list
    = take (Z.to_nat (pageNumber * rowsPerPage)) rows.
Proof.
  intros pageNumber rowsPerPage rows before page.
  assert (Hp : 1 ≤ pageNumber < 2 ^ 63) by (unfold pageNumber; lia).
  assert (Hr : 0 ≤ rowsPerPage) by (unfold rowsPerPage; lia).
  assert (Hb : (pageNumber - 1) * rowsPerPage < 2 ^ 63)
    by (unfold pageNumber, rowsPerPage; lia).
  split; [auto|]. split; [vm_compute; reflexivity|].
  exact (Query_page pageNumber rowsPerPage sim0 Hp Hr Hb).
Defined.

(** On the users table the user [QueryByID] returns has the identifier
    asked for. *)
Lemma QueryByID_returns_id `{Validator} `{AuthRoles}
    (claims : Claims) (userID : string) (usr : User) (w w' : Sim) :
  QueryByID claims userID w = (Ok usr, w') → User_ID usr = userID.
Proof.
  unfold QueryByID. destruct (CheckID userID); [discriminate|].
  destruct (negb (Authorized claims RoleAdmin)
            && negb (String.eqb (Claims_Subject claims) userID));
    [discriminate|].
  change (NamedQueryStruct (SelectByID userID) w)
    with (sim_query_one (SelectByID userID) (sim_users w), w).
  unfold sim_query_one.
  destruct (find (has_id userID) (sim_users w)) as [u|] eqn:Hfind;
    [|discriminate].
  destruct (negb (Authorized claims RoleAdmin)
            && negb (String.eqb (Claims_Subject claims) (User_ID u)));
    [discriminate|].
  intros [= <- _]. apply (stored_id w). exact Hfind.
Qed.

(** X13: on the users table, a call of the store executes one statement at
    most: [Create] an INSERT, [Update] an UPDATE for the identifier it was
    called with, [Delete] the DELETE for it; [QueryByID], [QueryByEmail] and
    [Query] leave the world as it is, and [Authenticate] leaves the table and
    the journal as they are. *)
Theorem one_statement_per_call `{Validator} `{Bcrypt} `{AuthRoles}
    (claims : Claims) (w : Sim) :
  (∀ nu now,
     sim_journal (snd (Create nu now w)) = sim_journal w
     ∨ ∃ usr, sim_journal (snd (Create nu now w))
              = (sim_journal w ++ [InsertUser usr])%list)
  ∧ (∀ userID uu now,
       sim_journal (snd (Update claims userID uu now w)) = sim_journal w
       ∨ ∃ usr, User_ID usr = userID
                ∧ sim_journal (snd (Update claims userID uu now w))
                  = (sim_journal w ++ [UpdateUserRow usr])%list)
  ∧ (∀ userID,
       sim_journal (snd (Delete claims userID w)) = sim_journal w
       ∨ sim_journal (snd (Delete claims userID w))
         = (sim_journal w ++ [DeleteUser userID])%list)
  ∧ (∀ userID, snd (QueryByID claims userID w) = w)
  ∧ (∀ email, snd (QueryByEmail claims email w) = w)
  ∧ (∀ pageNumber rowsPerPage, snd (Query pageNumber rowsPerPage w) = w)
  ∧ (∀ now email password,
       sim_users (snd (Authenticate now email password w)) = sim_users w
       ∧ sim_journal (snd (Authenticate now email password w)) = sim_journal w).
Proof.
  assert (HQ : ∀ userID, snd (QueryByID claims userID w) = w).
  { intros userID. unfold QueryByID.
    destruct (CheckID userID); [reflexivity|].
    destruct (negb (Authorized claims RoleAdmin)
              && negb (String.eqb (Claims_Subject claims) userID));
      [reflexivity|].
    change (NamedQueryStruct (SelectByID userID) w)
      with (sim_query_one (SelectByID userID) (sim_users w), w).
    destruct (sim_query_one (SelectByID userID) (sim_users w)) as [usr|err].
    - destruct (negb (Authorized claims RoleAdmin)
                && negb (String.eqb (Claims_Subject claims) (User_ID usr)));
        reflexivity.
    - destruct (error_is_var err ErrDBNotFound); reflexivity. }
  split; [|split; [|split; [|split; [|split; [|split]]]]].
  - intros nu now. unfold Create.
    destruct (Check_NewUser nu); [left; reflexivity|].
    change (bcrypt_GenerateFromPassword (NewUser_Password nu) w)
      with (Ok (sim_hash (NewUser_Password nu)), w).
    cbn [validate_GenerateID sim_runtime].
    unfold NamedExecContext, sim_persistence.
    match goal with
    | |- context [sim_exec ?stmt ?rows] => destruct (sim_exec stmt rows)
    end; right; eexists; reflexivity.
  - intros userID uu now. unfold Update.
    destruct (CheckID userID) eqn:Hid; [left; reflexivity|].
    destruct (Check_UpdateUser uu); [left; reflexivity|].
    destruct (QueryByID claims userID w) as [[usr|err] w1] eqn:Hq.
    + pose proof (HQ userID) as Hw. rewrite Hq in Hw. cbn [snd] in Hw. subst w1.
      assert (Husr : User_ID (Update_assign uu usr) = userID).
      { destruct (Update_assign_frame uu usr) as (-> & _).
        exact (QueryByID_returns_id claims userID usr w w Hq). }
      change (bcrypt_GenerateFromPassword) with
        (λ (password : string) (w : Sim), (Ok (sim_hash password), w)).
      destruct (UpdateUser_Password uu); right; eexists;
        (split; [|reflexivity]); exact Husr.
    + pose proof (HQ userID) as Hw. rewrite Hq in Hw. cbn [snd] in Hw. subst w1.
      destruct (errors_Is err ErrDBNotFound); left; reflexivity.
  - intros userID. unfold Delete.
    destruct (CheckID userID); [left; reflexivity|].
    destruct (negb (Authorized claims RoleAdmin)
              && negb (String.eqb (Claims_Subject claims) userID));
      [left; reflexivity|].
    right. reflexivity.
  - exact HQ.
  - intros email. unfold QueryByEmail.
    change (NamedQueryStruct (SelectByEmail email) w)
      with (sim_query_one (SelectByEmail email) (sim_users w), w).
    destruct (sim_query_one (SelectByEmail email) (sim_users w)) as [usr|err];
      [|reflexivity].
    destruct (negb (Authorized claims RoleAdmin)
              && negb (String.eqb (Claims_Subject claims) (User_ID usr)));
      reflexivity.
  - intros pageNumber rowsPerPage. unfold Query.
    match goal with
    | |- context [NamedQuerySlice ?q w] =>
        change (NamedQuerySlice q w) with (sim_query_many q (sim_users w), w);
        destruct (sim_query_many q (sim_users w)) as [users|err]
    end; [reflexivity|].
    destruct (error_is_var err ErrNotFound); reflexivity.
  - intros now email password. unfold Authenticate.
    change (NamedQueryStruct (SelectByEmail email) w)
      with (sim_query_one (SelectByEmail email) (sim_users w), w).
    destruct (sim_query_one (SelectByEmail email) (sim_users w)) as [usr|err].
    + destruct (bcrypt_CompareHashAndPassword (User_PasswordHash usr) password);
        split; reflexivity.
    + destruct (error_is_var err ErrNotFound); split; reflexivity.
Qed.

(** X14: on the users table, [Update] neither adds nor removes a row and
    changes no user ID, and [Delete] adds no row and changes none; so both
    keep the user IDs of the table distinct. *)
Theorem Update_Delete_keep_ids `{Validator} `{AuthRoles}
    (claims : Claims) (userID : string) (uu : UpdateUser) (now : Time) (w : Sim) :
  NoDup (map User_ID (sim_users w)) →
  map User_ID (sim_users (snd (Update claims userID uu now w)))
  = map User_ID (sim_users w)
  ∧ NoDup (map User_ID (sim_users (snd (Update claims userID uu now w))))
  ∧ sim_users (snd (Delete claims userID w)) `sublist_of` sim_users w
  ∧ NoDup (map User_ID (sim_users (snd (Delete claims userID w)))).
Proof.
  intros Hnd.
  assert (Hupd : map User_ID (sim_users (snd (Update claims userID uu now w)))
                 = map User_ID (sim_users w)).
  { destruct (Update_rows claims userID uu now w) as [-> | [usr ->]];
      [reflexivity|].
    rewrite map_map. apply map_ext. intros u.
    destruct (has_id userID u); reflexivity. }
  assert (Hdel : sim_users (snd (Delete claims userID w)) `sublist_of` sim_users w).
  { unfold Delete. destruct (CheckID userID); [reflexivity|].
    destruct (negb (Authorized claims RoleAdmin)
              && negb (String.eqb (Claims_Subject claims) userID));
      [reflexivity|].
    change (NamedExecContext (DeleteUser userID) w)
      with (None : goerror,
            sim_with_users (filter (λ old, has_id userID old = false) (sim_users w))
                           (DeleteUser userID) w).
    cbn [snd sim_with_users sim_users]. apply sublist_filter. }
  split; [exact Hupd|]. split; [rewrite Hupd; exact Hnd|]. split; [exact Hdel|].
  apply (sublist_NoDup _ (map User_ID (sim_users w))); [exact Hnd|].
  apply (fmap_sublist User_ID). exact Hdel.
Qed.

Lemma Update_Delete_keep_ids_witness :
  let _ : Validator := sim_validator in
  let _ : AuthRoles := sim_roles in
  let claims := claims_of bob in
  let userID := User_ID alice in
  let uu := {| UpdateUser_Name := None; UpdateUser_Email := Some "alice@x.com";
               UpdateUser_Roles := Some ["ADMIN"]; UpdateUser_Password := Some "x" |} in
  let now := 1700000000 * Second in
  NoDup (map User_ID (sim_users sim0))
  ∧ map User_ID (sim_users (snd (Update claims userID uu now sim0)))
    = map User_ID (sim_users sim0)
  ∧ NoDup (map User_ID (sim_users (snd (Update claims userID uu now sim0))))
  ∧ sim_users (snd (Delete claims userID sim0)) `sublist_of` sim_users sim0
  ∧ NoDup (map User_ID (sim_users (snd (Delete claims userID sim0)))).
Proof.
  intros V R claims userID uu now.
  assert (Hnd : NoDup (map User_ID (sim_users sim0))).
  { cbn [sim0 sim_users map alice bob User_ID].
    apply NoDup_cons. split; [|apply NoDup_singleton].
    intros Hin. apply list_elem_of_singleton in Hin. discriminate. }
  split; [exact Hnd|].
  exact (Update_Delete_keep_ids claims userID uu now sim0 Hnd).
Defined.

(** ** The test handler *)

(** X15: for a number below 100 the [Test] handler returns the request error
    with the status 400 and writes nothing exactly when the number is even;
    for an odd number it returns nil and writes the one response, status 200
    with the body of status OK. *)
Theorem Test_even_odd (n : Z) (traceID : string) (now : Time) :
  0 ≤ n < 100 →
  let r0 := new_request traceID now in
  (Z.even n = true →
   Test n r0
   = (Some (NewRequestError (NewError "trusted error") StatusBadRequest), r0))
  ∧ (Z.even n = false →
     fst (Test n r0) = None
     ∧ req_wire (snd (Test n r0)) = [(StatusOK, JObject [("Status", JString "OK")])]
     ∧ Values_Started (req_values (snd (Test n r0))) = true).
Proof.
  intros Hn r0. unfold Test.
  assert (Hrem : (n `rem` 2 =? 0) = Z.even n).
  { rewrite Z.rem_mod_nonneg by lia. rewrite Zeven_mod. reflexivity. }
  rewrite Hrem. split; intros He; rewrite He.
  - reflexivity.
  - repeat split.
Qed.

Lemma Test_even_odd_witness :
  let n := 7 in
  let r0 := new_request "trace" (1700000000 * Second) in
  0 ≤ n < 100
  ∧ (Z.even n = true →
     Test n r0
     = (Some (NewRequestError (NewError "trusted error") StatusBadRequest), r0))
  ∧ (Z.even n = false →
     fst (Test n r0) = None
     ∧ req_wire (snd (Test n r0)) = [(StatusOK, JObject [("Status", JString "OK")])]
     ∧ Values_Started (req_values (snd (Test n r0))) = true).
Proof.
  intros n r0.
  assert (Hn : 0 ≤ n < 100) by (unfold n; lia).
  split; [exact Hn|].
  exact (Test_even_odd n "trace" (1700000000 * Second) Hn).
Defined.

(** ** Page numbers below one *)

(** X16: [Query] does not check the page number: for a page number below 1
    and a page size above 0 the offset it sends to the database is negative,
    namely [(pageNumber - 1) * rowsPerPage], and what the database answers to
    that query is what [Query] returns, an error wrapped. *)
Theorem Query_page_below_one {W : Type} `{Persistence W}
    (pageNumber rowsPerPage : Z) (w : W) :
  - 2 ^ 31 ≤ pageNumber ≤ 0 →
  0 < rowsPerPage ≤ 2 ^ 31 →
  let offset := (pageNumber - 1) * rowsPerPage in
  offset < 0
  ∧ Query pageNumber rowsPerPage w
    = match NamedQuerySlice (SelectPage offset rowsPerPage) w with
      | (Err err, w1) =>
          if error_is_var err ErrNotFound
          then (Err (ErrorVar ErrNotFound), w1)
          else (Err (WrapError "selecting users: %w" [] err), w1)
      | (Ok users, w1) => (Ok users, w1)
      end.
Proof.
  intros Hp Hr offset. split; [unfold offset; nia|].
  unfold Query.
  rewrite (wrap_int_small (pageNumber - 1)) by lia.
  rewrite (wrap_int_small ((pageNumber - 1) * rowsPerPage)) by nia.
  reflexivity.
Qed.

Lemma Query_page_below_one_witness :
  let pageNumber := 0 in
  let rowsPerPage := 10 in
  let offset := (pageNumber - 1) * rowsPerPage in
  (- 2 ^ 31 ≤ pageNumber ≤ 0 ∧ 0 < rowsPerPage ≤ 2 ^ 31)
  ∧ fst (Query pageNumber rowsPerPage sim0)
    = Err (WrapError "selecting users: %w" []
             (NewError "OFFSET and FETCH must not be negative"))
  ∧ offset < 0
  ∧ Query pageNumber rowsPerPage sim0
    = match NamedQuerySlice (SelectPage offset rowsPerPage) sim0 with
      | (Err err, w1) =>
          if error_is_var err ErrNotFound
          then (Err (ErrorVar ErrNotFound), w1)
          else (Err (WrapError "selecting users: %w" [] err), w1)
      | (Ok users, w1) => (Ok users, w1)
      end.
Proof.
  intros pageNumber rowsPerPage offset.
  assert (Hp : - 2 ^ 31 ≤ pageNumber ≤ 0) by (unfold pageNumber; lia).
  assert (Hr : 0 < rowsPerPage ≤ 2 ^ 31) by (unfold rowsPerPage; lia).
  split; [auto|]. split; [vm_compute; reflexivity|].
  exact (Query_page_below_one pageNumber rowsPerPage sim0 Hp Hr).
Defined.
